(** * The segment checker of the query coordinator

    A shallow embedding of
    [internal/querycoordv2/checkers/segment_checker.go]: the checker that
    compares the target of every replica with the observed distribution and
    emits load and release tasks.

    Go's [int64] identifiers, versions and [uint64] timestamps are only ever
    compared, never computed with, so they are plain [Z].  Go maps that are
    only looked up are [gmap]s; the places where the program iterates over a
    map or calls the standard library's [sort.Slice] go through a
    [GoRuntime], which fixes the (unspecified) order.  A nil dereference is
    the [Panic] outcome of the [result] monad. *)

From stdpp Require Import gmap strings list fin_maps sorting.

Local Open Scope Z_scope.

(** ** Outcomes of code that may fault *)

Inductive result (A : Type) : Type :=
  | Ok (a : A)
  | Panic.
Arguments Ok {A} a.
Arguments Panic {A}.

#[global] Instance result_ret : MRet result := λ A a, Ok a.
#[global] Instance result_bind : MBind result := λ A B f r,
  match r with
  | Ok a => f a
  | Panic => Panic
  end.

(** [p.field] on a pointer [p]: a nil pointer faults. *)
Definition deref {A} (p : option A) : result A :=
  match p with
  | Some a => Ok a
  | None => Panic
  end.

(** [for _, x := range l { st = body(st, x) }] where the body may fault. *)
Fixpoint forEach {A S} (body : S → A → result S) (st : S) (l : list A) : result S :=
  match l with
  | [] => Ok st
  | x :: l' => st' ← body st x; forEach body st' l'
  end.

(** A Go call returning [(value, error)]. *)
Inductive GoResult (A : Type) : Type :=
  | Ret (a : A)
  | Err (e : string).
Arguments Ret {A} a.
Arguments Err {A} e.

(** ** The protobuf and meta data the checker reads *)

Module datapb.
(** Modelled from the spec: the level enumeration is declared in the
    generated [datapb] package; the spec's data model gives it as
    Normal | L0, and the checker only ever tests for [SegmentLevel_L0]. *)
Inductive SegmentLevel : Set :=
  | SegmentLevel_Normal
  | SegmentLevel_L0.

Record MsgPosition : Set := { Timestamp : Z }.

Record SegmentInfo : Set := {
  ID : Z;
  CollectionID : Z;
  PartitionID : Z;
  InsertChannel : string;
  Level : SegmentLevel;
  StartPosition : option MsgPosition;
}.

Record VchannelInfo : Set := { SeekPosition : option MsgPosition }.

(** Generated getters are nil-safe: a nil position has timestamp 0. *)
Definition GetTimestamp (p : option MsgPosition) : Z :=
  match p with
  | Some pos => Timestamp pos
  | None => 0
  end.
End datapb.

#[global] Instance SegmentLevel_eq_dec : EqDecision datapb.SegmentLevel.
Proof. solve_decision. Defined.

Module querypb.
Inductive DataScope : Set :=
  | DataScope_UnKnown
  | DataScope_All
  | DataScope_Streaming
  | DataScope_Historical.

Record SegmentDist : Set := { NodeID : Z; Version : Z }.

Record Replica : Set := {
  ID : Z;
  CollectionID : Z;
  Nodes : list Z;
}.
End querypb.

Module meta.
(** [meta.Segment] embeds the [*datapb.SegmentInfo] and adds the node that
    reported it and the version of that report. *)
Record Segment : Set := {
  SegmentInfo : datapb.SegmentInfo;
  Node : Z;
  Version : Z;
}.

Record DmChannel : Set := { VchannelInfo : datapb.VchannelInfo }.

Record LeaderView : Type := {
  ID : Z;
  TargetVersion : Z;
  GrowingSegments : gmap Z Segment;
  Segments : gmap Z querypb.SegmentDist;
}.

Record Partition : Set := { PartitionID : Z }.
Record Collection : Set := { CollectionID : Z }.

Inductive TargetScope : Set :=
  | CurrentTarget
  | NextTarget
  | CurrentTargetFirst
  | NextTargetFirst.

Inductive SegmentDistFilter : Set :=
  | WithCollectionID (collectionID : Z)
  | WithNodeID (nodeID : Z).
End meta.

Definition GetID (s : meta.Segment) : Z := datapb.ID (meta.SegmentInfo s).
Definition GetCollectionID (s : meta.Segment) : Z :=
  datapb.CollectionID (meta.SegmentInfo s).
Definition GetInsertChannel (s : meta.Segment) : string :=
  datapb.InsertChannel (meta.SegmentInfo s).
Definition GetStartPosition (s : meta.Segment) : option datapb.MsgPosition :=
  datapb.StartPosition (meta.SegmentInfo s).
Definition GetSeekPosition (ch : meta.DmChannel) : option datapb.MsgPosition :=
  datapb.SeekPosition (meta.VchannelInfo ch).

(** ** Tasks *)

Module task.
Inductive ActionType : Set :=
  | ActionTypeGrow
  | ActionTypeReduce
  | ActionTypeUpdate.

Inductive Priority : Set :=
  | TaskPriorityLow
  | TaskPriorityNormal
  | TaskPriorityHigh.

Record SegmentAction : Set := {
  ActionNode : Z;
  Type_ : ActionType;
  Shard : string;
  SegmentID : Z;
  Scope : querypb.DataScope;
}.

Definition NewSegmentActionWithScope (nodeID : Z) (typ : ActionType)
    (shard : string) (segmentID : Z) (scope : querypb.DataScope) : SegmentAction :=
  {| ActionNode := nodeID; Type_ := typ; Shard := shard;
     SegmentID := segmentID; Scope := scope |}.

Record Task : Set := {
  CollectionID : Z;
  Replica : querypb.Replica;
  Actions : list SegmentAction;
  Reason : string;
  Priority_ : Priority;
}.

(** Modelled from the spec: [task.SetReason] and [task.SetPriority] live in
    the task package; they stamp the reason, respectively the priority, on
    every task they are given. *)
Definition withReason (reason : string) (t : Task) : Task :=
  {| CollectionID := CollectionID t; Replica := Replica t;
     Actions := Actions t; Reason := reason; Priority_ := Priority_ t |}.
Definition withPriority (p : Priority) (t : Task) : Task :=
  {| CollectionID := CollectionID t; Replica := Replica t;
     Actions := Actions t; Reason := Reason t; Priority_ := p |}.
Definition SetReason (reason : string) (tasks : list Task) : list Task :=
  withReason reason <$> tasks.
Definition SetPriority (p : Priority) (tasks : list Task) : list Task :=
  withPriority p <$> tasks.
End task.

Module balance.
Record SegmentAssignPlan : Set := {
  Segment : meta.Segment;
  Replica : option querypb.Replica;
  From : Z;
  To : Z;
}.
End balance.

(** ** What Go leaves unspecified

    The order in which [range] visits a map, and the order in which
    [sort.Slice] leaves elements that compare equal. *)

Record GoRuntime : Type := {
  range_map : ∀ (K : Type) `{Countable K} (V : Type), gmap K V → list (K * V);
  sort_Slice : ∀ (A : Type), (A → A → bool) → list A → list A;
}.
Arguments range_map _ {K _ _ V} _.
Arguments sort_Slice _ {A} _ _.

(** The contract both operations do guarantee: [range] visits every entry
    exactly once, and [sort.Slice] permutes its argument into an order where
    no element is [less] than one before it. *)
Record GoRuntimeOk (rt : GoRuntime) : Prop := {
  range_map_perm : ∀ (K : Type) `{Countable K} (V : Type) (m : gmap K V),
    range_map rt m ≡ₚ map_to_list m;
  sort_Slice_perm : ∀ (A : Type) (less : A → A → bool) (l : list A),
    sort_Slice rt less l ≡ₚ l;
  sort_Slice_sorted : ∀ (A : Type) (key : A → Z) (l : list A),
    StronglySorted (λ x y, key x ≤ key y)
      (sort_Slice rt (λ x y, bool_decide (key x < key y)) l);
}.

(** Insertion sort, putting [x] in front of the first element that the
    test [before x] accepts. *)
Fixpoint insert_sorted {A} (before : A → A → bool) (x : A) (l : list A) : list A :=
  match l with
  | [] => [x]
  | y :: l' => if before x y then x :: y :: l' else y :: insert_sorted before x l'
  end.

Definition insertion_sort {A} (before : A → A → bool) (l : list A) : list A :=
  foldr (insert_sorted before) [] l.

(** A stable [sort.Slice]: among equal elements the original order is kept. *)
Definition stable_sort {A} (less : A → A → bool) (l : list A) : list A :=
  insertion_sort (λ x y, negb (less y x)) l.

Definition stable_runtime : GoRuntime :=
  {| range_map := λ K _ _ V m, map_to_list m;
     sort_Slice := λ A less l, stable_sort less l |}.

(** ** The checker and its collaborators

    [SegmentChecker] holds pointers to the meta store, the distribution
    manager, the target manager, the balancer and the node manager.  None of
    them is part of this file's source; each method the checker calls is a
    field here, read from one snapshot of the collaborator. *)

Record SegmentChecker : Type := {
  (* checkerActivation *)
  IsActive : bool;
  (* meta *)
  GetCollection : Z → option meta.Collection;
  CollectionManager_GetAll : list Z;
  CollectionManager_GetPartition : Z → option meta.Partition;
  ReplicaManager_GetByCollection : Z → list querypb.Replica;
  meta_Get : Z → option querypb.Replica;
  ResourceManager_CheckOutboundNodes : querypb.Replica → gset Z;
  NilReplica : querypb.Replica;
  (* dist *)
  SegmentDistManager_GetByFilter : list meta.SegmentDistFilter → list meta.Segment;
  GetShardLeadersByReplica : querypb.Replica → gmap string Z;
  GetShardLeader : querypb.Replica → string → option Z;
  GetLeaderShardView : Z → string → option meta.LeaderView;
  GetLatestLeadersByReplicaShard : querypb.Replica → string → option meta.LeaderView;
  (* targetMgr *)
  IsNextTargetExist : Z → bool;
  IsCurrentTargetExist : Z → bool;
  GetCollectionTargetVersion : Z → meta.TargetScope → Z;
  GetGrowingSegmentsByCollection : Z → meta.TargetScope → gset Z;
  GetDmChannelsByCollection : Z → meta.TargetScope → gmap string meta.DmChannel;
  GetSealedSegmentsByCollection : Z → meta.TargetScope → gmap Z datapb.SegmentInfo;
  GetSealedSegment : Z → Z → meta.TargetScope → option datapb.SegmentInfo;
  (* balancer *)
  AssignSegment : Z → list meta.Segment → list Z → bool → list balance.SegmentAssignPlan;
  (* nodeMgr *)
  IsStoppingNode : Z → GoResult bool;
  (* task construction *)
  NewSegmentTask : Z → querypb.Replica → task.SegmentAction → GoResult task.Task;
  CreateSegmentTasksFromPlans : list balance.SegmentAssignPlan → list task.Task;
}.

Definition initialTargetVersion : Z := 0.

(** Modelled from the spec: [utils.FilterReleased] is not part of this file;
    it keeps the segments belonging to collections no longer in the live
    collection set. *)
Definition FilterReleased (segments : list meta.Segment) (collectionIDs : list Z)
    : list meta.Segment :=
  filter (λ s, GetCollectionID s ∉ collectionIDs) segments.

(** [lo.GroupBy]: the elements of each key, in their order of appearance. *)
Definition GroupBy {A} (l : list A) (key : A → string) : gmap string (list A) :=
  foldl (λ m x, <[key x := default [] (m !! key x) ++ [x]]> m) ∅ l.

Definition isLevel0 (segment : datapb.SegmentInfo) : Prop :=
  datapb.Level segment = datapb.SegmentLevel_L0.

#[global] Instance isLevel0_dec segment : Decision (isLevel0 segment).
Proof. unfold isLevel0. apply _. Defined.

Section Checker.
Variable rt : GoRuntime.
Variable c : SegmentChecker.

Definition readyToCheck (collectionID : Z) : bool :=
  let metaExist := bool_decide (is_Some (GetCollection c collectionID)) in
  let targetExist := IsNextTargetExist c collectionID || IsCurrentTargetExist c collectionID in
  metaExist && targetExist.

Definition getSealedSegmentsDist (replica : querypb.Replica) : list meta.Segment :=
  foldl (λ ret node,
           ret ++ SegmentDistManager_GetByFilter c
                    [meta.WithCollectionID (querypb.CollectionID replica);
                     meta.WithNodeID node])
        [] (querypb.Nodes replica).

(** *** getGrowingSegmentDiff *)

(** The body of the loop over [view.GrowingSegments]. *)
Definition growingReleaseStep (collectionID : Z)
    (toRelease : list meta.Segment) (segment : meta.Segment) : list meta.Segment :=
  let nextTargetSegmentIDs := GetGrowingSegmentsByCollection c collectionID meta.NextTarget in
  let currentTargetSegmentIDs := GetGrowingSegmentsByCollection c collectionID meta.CurrentTarget in
  let currentTargetChannelMap := GetDmChannelsByCollection c collectionID meta.CurrentTarget in
  if bool_decide (GetID segment ∉ currentTargetSegmentIDs)
     && bool_decide (GetID segment ∉ nextTargetSegmentIDs)
  then
    match currentTargetChannelMap !! GetInsertChannel segment with
    | Some channel =>
        let timestampInSegment := datapb.GetTimestamp (GetStartPosition segment) in
        let timestampInTarget := datapb.GetTimestamp (GetSeekPosition channel) in
        if bool_decide (timestampInSegment < timestampInTarget)
        then toRelease ++ [segment]
        else toRelease
    | None => toRelease
    end
  else toRelease.

(** The body of the loop over the replica's shard leaders. *)
Definition growingLeaderStep (collectionID : Z)
    (toRelease : list meta.Segment) (leader : string * Z) : list meta.Segment :=
  let '(channelName, node) := leader in
  match GetLeaderShardView c node channelName with
  | None => toRelease
  | Some view =>
      let targetVersion := GetCollectionTargetVersion c collectionID meta.CurrentTarget in
      if bool_decide (meta.TargetVersion view ≠ targetVersion) then toRelease
      else foldl (growingReleaseStep collectionID) toRelease
             (snd <$> range_map rt (meta.GrowingSegments view))
  end.

Definition getGrowingSegmentDiff (collectionID replicaID : Z)
    : list datapb.SegmentInfo * list meta.Segment :=
  match meta_Get c replicaID with
  | None => ([], [])
  | Some replica =>
      let leaders := GetShardLeadersByReplica c replica in
      ([], foldl (growingLeaderStep collectionID) [] (range_map rt leaders))
  end.

(** *** getSealedSegmentDiff *)

(** [distMap[s.GetID()] = s.Node] for every [s], in order. *)
Definition buildDistMap (dist : list meta.Segment) : gmap Z Z :=
  foldl (λ distMap s, <[GetID s := meta.Node s]> distMap) ∅ dist.

(** The test shared by the loops over the next and the current target:
    the segment is missing from the distribution, or it is an L0 segment
    that sits on another node than the channel's latest leader. *)
Definition lacksSegment (replica : querypb.Replica) (distMap : gmap Z Z)
    (segmentID : Z) (segment : datapb.SegmentInfo) : bool :=
  match distMap !! segmentID with
  | None => true
  | Some node =>
      if bool_decide (isLevel0 segment) then
        match GetLatestLeadersByReplicaShard c replica (datapb.InsertChannel segment) with
        | Some leader => bool_decide (node ≠ meta.ID leader)
        | None => false
        end
      else false
  end.

(** [toLoad] as it stands after the loops over both targets. *)
Definition sealedLoadCandidates (replica : querypb.Replica) (distMap : gmap Z Z)
    (nextTargetMap currentTargetMap : gmap Z datapb.SegmentInfo)
    : list datapb.SegmentInfo :=
  let toLoad :=
    foldl (λ toLoad '(segmentID, segment),
             if lacksSegment replica distMap segmentID segment
             then toLoad ++ [segment] else toLoad)
          [] (range_map rt nextTargetMap) in
  foldl (λ toLoad '(segmentID, segment),
           if bool_decide (is_Some (nextTargetMap !! segmentID)) then toLoad
           else if lacksSegment replica distMap segmentID segment
           then toLoad ++ [segment] else toLoad)
        toLoad (range_map rt currentTargetMap).

Definition sealedReleaseCandidates (dist : list meta.Segment)
    (nextTargetMap currentTargetMap : gmap Z datapb.SegmentInfo) : list meta.Segment :=
  foldl (λ toRelease segment,
           let existOnCurrent := bool_decide (is_Some (currentTargetMap !! GetID segment)) in
           let existOnNext := bool_decide (is_Some (nextTargetMap !! GetID segment)) in
           if negb existOnNext && negb existOnCurrent
           then toRelease ++ [segment] else toRelease)
        [] dist.

(** [toLoad] narrowed to its L0 members when it has any. *)
Definition level0First (toLoad : list datapb.SegmentInfo) : list datapb.SegmentInfo :=
  let level0Segments := filter isLevel0 toLoad in
  if bool_decide (0 < length level0Segments)%nat then level0Segments else toLoad.

Definition sortedSealedDist (replica : querypb.Replica) : list meta.Segment :=
  sort_Slice rt (λ si sj, bool_decide (meta.Version si < meta.Version sj))
    (getSealedSegmentsDist replica).

Definition getSealedSegmentDiff (collectionID replicaID : Z)
    : list datapb.SegmentInfo * list meta.Segment :=
  match meta_Get c replicaID with
  | None => ([], [])
  | Some replica =>
      let dist := sortedSealedDist replica in
      let distMap := buildDistMap dist in
      let nextTargetMap := GetSealedSegmentsByCollection c collectionID meta.NextTarget in
      let currentTargetMap := GetSealedSegmentsByCollection c collectionID meta.CurrentTarget in
      let toLoad := sealedLoadCandidates replica distMap nextTargetMap currentTargetMap in
      let toRelease := sealedReleaseCandidates dist nextTargetMap currentTargetMap in
      (level0First toLoad, toRelease)
  end.

(** *** findRepeatedSealedSegments *)

(** [segment != nil && segment.GetLevel() == L0] for the target's view of
    the placement [s]. *)
Definition isL0Segment (s : meta.Segment) : bool :=
  match GetSealedSegment c (GetCollectionID s) (GetID s) meta.CurrentTargetFirst with
  | Some segment => bool_decide (isLevel0 segment)
  | None => false
  end.

(** One turn of the loop; the state is [segments], the placements found
    redundant so far, and [versions], the placement tracked per segment. *)
Definition repeatedStep (st : list meta.Segment * gmap Z meta.Segment)
    (s : meta.Segment) : list meta.Segment * gmap Z meta.Segment :=
  let '(segments, versions) := st in
  if isL0Segment s then st
  else
    match versions !! GetID s with
    | None => (segments, <[GetID s := s]> versions)
    | Some maxVer =>
        if bool_decide (meta.Version maxVer ≤ meta.Version s)
        then (segments ++ [maxVer], <[GetID s := s]> versions)
        else (segments ++ [s], versions)
    end.

Definition repeatedLoop (dist : list meta.Segment)
    : list meta.Segment * gmap Z meta.Segment :=
  foldl repeatedStep ([], ∅) dist.

Definition findRepeatedSealedSegments (replicaID : Z) : list meta.Segment :=
  match meta_Get c replicaID with
  | None => []
  | Some replica => fst (repeatedLoop (getSealedSegmentsDist replica))
  end.

(** *** The staleness filters *)

Definition filterExistedOnLeader (replica : querypb.Replica)
    (segments : list meta.Segment) : result (list meta.Segment) :=
  forEach (λ filtered s,
             match GetShardLeader c replica (GetInsertChannel s) with
             | None => Ok filtered
             | Some leaderID =>
                 view ← deref (GetLeaderShardView c leaderID (GetInsertChannel s));
                 match meta.Segments view !! GetID s with
                 | Some seg =>
                     if bool_decide (querypb.NodeID seg = meta.Node s)
                     then Ok filtered
                     else Ok (filtered ++ [s])
                 | None => Ok (filtered ++ [s])
                 end
             end)
          [] segments.

Definition filterSegmentInUse (replica : querypb.Replica)
    (segments : list meta.Segment) : result (list meta.Segment) :=
  forEach (λ filtered s,
             match GetShardLeader c replica (GetInsertChannel s) with
             | None => Ok filtered
             | Some leaderID =>
                 let view := GetLeaderShardView c leaderID (GetInsertChannel s) in
                 let currentTargetVersion :=
                   GetCollectionTargetVersion c (GetCollectionID s) meta.CurrentTarget in
                 let partition :=
                   CollectionManager_GetPartition c (datapb.PartitionID (meta.SegmentInfo s)) in
                 view ← deref view;
                 let readableVersionNotUpdate :=
                   bool_decide (meta.TargetVersion view ≠ initialTargetVersion)
                   && bool_decide (meta.TargetVersion view < currentTargetVersion) in
                 if bool_decide (is_Some partition) && readableVersionNotUpdate
                 then Ok filtered
                 else Ok (filtered ++ [s])
             end)
          [] segments.

(** *** Task creation *)

(** The predicate handed to [lo.Filter] over the replica's nodes. *)
Definition nodeAvailable (outboundNodes : gset Z) (node : Z) : bool :=
  match IsStoppingNode c node with
  | Err _ => false
  | Ret stop => bool_decide (node ∉ outboundNodes) && negb stop
  end.

Definition availableNodesOf (replica : querypb.Replica) : list Z :=
  let outboundNodes := ResourceManager_CheckOutboundNodes c replica in
  filter (λ node, nodeAvailable outboundNodes node) (querypb.Nodes replica).

(** One turn of the loop over the shards; [availableNodes] is assigned
    inside the loop and so belongs to the state. *)
Definition shardPlanStep (replica : querypb.Replica) (isLevel0 : bool)
    (st : list Z * list balance.SegmentAssignPlan)
    (entry : string * list datapb.SegmentInfo)
    : list Z * list balance.SegmentAssignPlan :=
  let '(availableNodes, plans) := st in
  let '(shard, segments) := entry in
  match GetLatestLeadersByReplicaShard c replica shard with
  | None => st
  | Some leader =>
      let availableNodes := if isLevel0 then [meta.ID leader] else availableNodes in
      let segmentInfos :=
        (λ s, {| meta.SegmentInfo := s; meta.Node := 0; meta.Version := 0 |}) <$> segments in
      let shardPlans :=
        AssignSegment c (querypb.CollectionID replica) segmentInfos availableNodes false in
      let shardPlans :=
        (λ p, {| balance.Segment := balance.Segment p;
                 balance.Replica := Some replica;
                 balance.From := balance.From p;
                 balance.To := balance.To p |}) <$> shardPlans in
      (availableNodes, plans ++ shardPlans)
  end.

Definition createSegmentLoadTasks (segments : list datapb.SegmentInfo)
    (replica : querypb.Replica) : list task.Task :=
  match segments with
  | [] => []
  | first :: _ =>
      let availableNodes := availableNodesOf replica in
      if bool_decide (length availableNodes = 0%nat) then []
      else
        let isLevel0 := bool_decide (isLevel0 first) in
        let shardSegments := GroupBy segments datapb.InsertChannel in
        let plans :=
          snd (foldl (shardPlanStep replica isLevel0) (availableNodes, [])
                 (range_map rt shardSegments)) in
        CreateSegmentTasksFromPlans c plans
  end.

Definition createSegmentReduceTasks (segments : list meta.Segment)
    (replica : querypb.Replica) (scope : querypb.DataScope) : list task.Task :=
  foldl (λ ret s,
           let action :=
             task.NewSegmentActionWithScope (meta.Node s) task.ActionTypeReduce
               (GetInsertChannel s) (GetID s) scope in
           match NewSegmentTask c (GetCollectionID s) replica action with
           | Err _ => ret
           | Ret t => ret ++ [t]
           end)
        [] segments.

(** *** checkReplica and Check *)

Definition checkReplica (replica : querypb.Replica) : result (list task.Task) :=
  let '(lacks, redundancies) :=
    getSealedSegmentDiff (querypb.CollectionID replica) (querypb.ID replica) in
  let tasks := createSegmentLoadTasks lacks replica in
  let tasks := task.SetReason "lacks of segment" tasks in
  let ret := [] ++ tasks in
  redundancies ← filterSegmentInUse replica redundancies;
  let tasks := createSegmentReduceTasks redundancies replica querypb.DataScope_Historical in
  let tasks := task.SetReason "segment not exists in target" tasks in
  let ret := ret ++ tasks in
  let redundancies := findRepeatedSealedSegments (querypb.ID replica) in
  redundancies ← filterExistedOnLeader replica redundancies;
  let tasks := createSegmentReduceTasks redundancies replica querypb.DataScope_Historical in
  let tasks := task.SetReason "redundancies of segment" tasks in
  let ret := ret ++ tasks in
  let '(_, redundancies) :=
    getGrowingSegmentDiff (querypb.CollectionID replica) (querypb.ID replica) in
  let tasks := createSegmentReduceTasks redundancies replica querypb.DataScope_Streaming in
  let tasks := task.SetReason "streaming segment not exists in target" tasks in
  Ok (ret ++ tasks).

(** The per-collection part of [Check]: the tasks of every replica of
    every collection that is ready to be checked. *)
Definition checkCollections (collectionIDs : list Z) : result (list task.Task) :=
  forEach (λ results cid,
             if readyToCheck cid then
               forEach (λ results r, tasks ← checkReplica r; Ok (results ++ tasks))
                       results (ReplicaManager_GetByCollection c cid)
             else Ok results)
          [] collectionIDs.

(** The tasks that release the segments of collections that are gone. *)
Definition releasedCollectionTasks (collectionIDs : list Z) : list task.Task :=
  let segments := SegmentDistManager_GetByFilter c [] in
  let released := FilterReleased segments collectionIDs in
  let reduceTasks :=
    createSegmentReduceTasks released (NilReplica c) querypb.DataScope_Historical in
  task.SetReason "collection released" reduceTasks.

Definition Check : result (list task.Task) :=
  if negb (IsActive c) then Ok []
  else
    let collectionIDs := CollectionManager_GetAll c in
    results ← checkCollections collectionIDs;
    let reduceTasks := releasedCollectionTasks collectionIDs in
    let results := results ++ reduceTasks in
    Ok (task.SetPriority task.TaskPriorityNormal results).

End Checker.

(** ** Notions used to state the properties *)

(** The placements the resolver looks at: those whose segment does not
    resolve to an L0 segment in the target. *)
Definition notL0 (c : SegmentChecker) (s : meta.Segment) : Prop :=
  isL0Segment c s = false.

#[global] Instance notL0_dec c s : Decision (notL0 c s).
Proof. unfold notL0. apply _. Defined.

(** The placements held by the [versions] map. *)
Definition trackedPlacements (versions : gmap Z meta.Segment) : list meta.Segment :=
  (map_to_list versions).*2.

(** The invariant of the resolver's loop after the placements [processed]:
    every placement looked at is released or tracked, exactly once; the
    tracked placement of a segment carries that segment's id and the highest
    version seen; every segment seen is tracked. *)
Record repeated_inv (c : SegmentChecker) (processed : list meta.Segment)
    (st : list meta.Segment * gmap Z meta.Segment) : Prop := {
  inv_split : st.1 ++ trackedPlacements st.2 ≡ₚ filter (notL0 c) processed;
  inv_key : ∀ k s, st.2 !! k = Some s → GetID s = k;
  inv_max : ∀ k s t, st.2 !! k = Some s → t ∈ processed → notL0 c t →
            GetID t = k → meta.Version t ≤ meta.Version s;
  inv_cover : ∀ t, t ∈ processed → notL0 c t → is_Some (st.2 !! GetID t);
}.
Arguments inv_split {c processed st} _.
Arguments inv_key {c processed st} _.
Arguments inv_max {c processed st} _.
Arguments inv_cover {c processed st} _.


(** ** Concrete snapshots

    A [Snapshot] is a small, explicit state of the collaborators, and
    [checkerOf] the checker reading it; the examples below run the checker
    on such snapshots. *)

Definition matchesFilter (f : meta.SegmentDistFilter) (s : meta.Segment) : bool :=
  match f with
  | meta.WithCollectionID collectionID => bool_decide (GetCollectionID s = collectionID)
  | meta.WithNodeID nodeID => bool_decide (meta.Node s = nodeID)
  end.

Record Snapshot : Type := {
  active : bool;
  collections : list Z;
  partitions : list Z;
  replicas : list querypb.Replica;
  placements : list meta.Segment;
  (* the node leading every channel, and the view it registered *)
  shardLeader : option Z;
  leaderView : option meta.LeaderView;
  currentVersion : Z;
  nextSealed : gmap Z datapb.SegmentInfo;
  currentSealed : gmap Z datapb.SegmentInfo;
  channels : gmap string meta.DmChannel;
  stoppingNodes : list Z;
  unknownNodes : list Z;
  outboundNodes : gset Z;
}.

Definition loadTaskOf (plan : balance.SegmentAssignPlan) : task.Task :=
  let s := balance.Segment plan in
  {| task.CollectionID := GetCollectionID s;
     task.Replica := default {| querypb.ID := -1; querypb.CollectionID := 0; querypb.Nodes := [] |}
                       (balance.Replica plan);
     task.Actions := [task.NewSegmentActionWithScope (balance.To plan) task.ActionTypeGrow
                        (GetInsertChannel s) (GetID s) querypb.DataScope_Historical];
     task.Reason := "";
     task.Priority_ := task.TaskPriorityLow |}.

Definition checkerOf (w : Snapshot) : SegmentChecker :=
  {| IsActive := active w;
     GetCollection := λ cid,
       if bool_decide (cid ∈ collections w) then Some {| meta.CollectionID := cid |} else None;
     CollectionManager_GetAll := collections w;
     CollectionManager_GetPartition := λ pid,
       if bool_decide (pid ∈ partitions w) then Some {| meta.PartitionID := pid |} else None;
     ReplicaManager_GetByCollection := λ cid,
       filter (λ r, querypb.CollectionID r = cid) (replicas w);
     meta_Get := λ rid, head (filter (λ r, querypb.ID r = rid) (replicas w));
     ResourceManager_CheckOutboundNodes := λ _, outboundNodes w;
     NilReplica := {| querypb.ID := -1; querypb.CollectionID := 0; querypb.Nodes := [] |};
     SegmentDistManager_GetByFilter := λ filters,
       filter (λ s, forallb (λ f, matchesFilter f s) filters) (placements w);
     GetShardLeadersByReplica := λ _,
       match shardLeader w with
       | Some node => (λ _, node) <$> channels w
       | None => ∅
       end;
     GetShardLeader := λ _ _, shardLeader w;
     GetLeaderShardView := λ _ _, leaderView w;
     GetLatestLeadersByReplicaShard := λ _ _, leaderView w;
     IsNextTargetExist := λ cid, bool_decide (cid ∈ collections w);
     IsCurrentTargetExist := λ cid, bool_decide (cid ∈ collections w);
     GetCollectionTargetVersion := λ _ _, currentVersion w;
     GetGrowingSegmentsByCollection := λ _ _, ∅;
     GetDmChannelsByCollection := λ _ _, channels w;
     GetSealedSegmentsByCollection := λ _ scope,
       match scope with
       | meta.NextTarget | meta.NextTargetFirst => nextSealed w
       | _ => currentSealed w
       end;
     GetSealedSegment := λ _ segmentID _,
       match currentSealed w !! segmentID with
       | Some segment => Some segment
       | None => nextSealed w !! segmentID
       end;
     AssignSegment := λ _ segments nodes _,
       match nodes with
       | [] => []
       | node :: _ =>
           (λ s, {| balance.Segment := s; balance.Replica := None;
                    balance.From := -1; balance.To := node |}) <$> segments
       end;
     IsStoppingNode := λ node,
       if bool_decide (node ∈ unknownNodes w) then Err "node not found"
       else Ret (bool_decide (node ∈ stoppingNodes w));
     NewSegmentTask := λ collectionID replica action,
       Ret {| task.CollectionID := collectionID; task.Replica := replica;
              task.Actions := [action]; task.Reason := "";
              task.Priority_ := task.TaskPriorityLow |};
     CreateSegmentTasksFromPlans := λ plans, loadTaskOf <$> plans |}.

Definition sealedInfo (segmentID : Z) (level : datapb.SegmentLevel) : datapb.SegmentInfo :=
  {| datapb.ID := segmentID; datapb.CollectionID := 100; datapb.PartitionID := 10;
     datapb.InsertChannel := "dml_0"; datapb.Level := level;
     datapb.StartPosition := None |}.

(** Segment [segmentID] of collection 100 as reported by [node]. *)
Definition placement (segmentID node version : Z) : meta.Segment :=
  {| meta.SegmentInfo := sealedInfo segmentID datapb.SegmentLevel_Normal;
     meta.Node := node; meta.Version := version |}.

Definition replica1 : querypb.Replica :=
  {| querypb.ID := 1; querypb.CollectionID := 100; querypb.Nodes := [1; 2; 3] |}.

(** One replica on nodes 1, 2, 3 holding [dist]; no leader yet, empty targets. *)
Definition distOnly (dist : list meta.Segment) : Snapshot :=
  {| active := true; collections := [100]; partitions := [10];
     replicas := [replica1]; placements := dist;
     shardLeader := None; leaderView := None; currentVersion := 0;
     nextSealed := ∅; currentSealed := ∅; channels := ∅;
     stoppingNodes := []; unknownNodes := []; outboundNodes := ∅ |}.

(** Segment 7 reported three times, the newest report on node 1. *)
Definition threeVersions : SegmentChecker :=
  checkerOf (distOnly [placement 7 1 3; placement 7 2 1; placement 7 3 2]).

(** Segment 7 reported by nodes 1 and 2 with the same version. *)
Definition equalVersions : SegmentChecker :=
  checkerOf (distOnly [placement 7 1 5; placement 7 2 5]).

(** ** The staleness filters, as the specification words them *)

(** No shard leader resolves for the candidate's channel. *)
Definition noShardLeader (c : SegmentChecker) (replica : querypb.Replica)
    (s : meta.Segment) : Prop :=
  GetShardLeader c replica (GetInsertChannel s) = None.

(** The channel leader's view maps the candidate's segment to the node the
    candidate was reported on. *)
Definition servedByLeader (c : SegmentChecker) (replica : querypb.Replica)
    (s : meta.Segment) : Prop :=
  ∃ leaderID view seg,
    GetShardLeader c replica (GetInsertChannel s) = Some leaderID
    ∧ GetLeaderShardView c leaderID (GetInsertChannel s) = Some view
    ∧ meta.Segments view !! GetID s = Some seg
    ∧ querypb.NodeID seg = meta.Node s.

(** The candidate's partition still exists and the channel leader's adopted
    target version is neither the initial one nor the current one yet. *)
Definition heldByStaleLeader (c : SegmentChecker) (replica : querypb.Replica)
    (s : meta.Segment) : Prop :=
  ∃ leaderID view,
    GetShardLeader c replica (GetInsertChannel s) = Some leaderID
    ∧ GetLeaderShardView c leaderID (GetInsertChannel s) = Some view
    ∧ is_Some (CollectionManager_GetPartition c (datapb.PartitionID (meta.SegmentInfo s)))
    ∧ meta.TargetVersion view ≠ initialTargetVersion
    ∧ meta.TargetVersion view
      < GetCollectionTargetVersion c (GetCollectionID s) meta.CurrentTarget.

(** Both filters read the leader view of every candidate whose shard leader
    resolves; this says that the view is registered. *)
Definition leaderViewRegistered (c : SegmentChecker) (replica : querypb.Replica)
    (s : meta.Segment) : Prop :=
  ∀ leaderID,
    GetShardLeader c replica (GetInsertChannel s) = Some leaderID →
    is_Some (GetLeaderShardView c leaderID (GetInsertChannel s)).

#[global] Instance noShardLeader_dec c replica s : Decision (noShardLeader c replica s).
Proof. unfold noShardLeader. apply _. Defined.

#[global] Instance servedByLeader_dec c replica s : Decision (servedByLeader c replica s).
Proof.
  unfold servedByLeader.
  destruct (GetShardLeader c replica (GetInsertChannel s)) as [leaderID|] eqn:Hl;
    [|right; intros (? & ? & ? & ? & _); discriminate].
  destruct (GetLeaderShardView c leaderID (GetInsertChannel s)) as [view|] eqn:Hv;
    [|right; intros (? & ? & ? & [= <-] & ? & _); congruence].
  destruct (meta.Segments view !! GetID s) as [seg|] eqn:Hs;
    [|right; intros (? & ? & ? & [= <-] & ? & ? & _); congruence].
  destruct (decide (querypb.NodeID seg = meta.Node s)) as [Hn|Hn].
  - left. exists leaderID, view, seg. auto.
  - right. intros (? & ? & ? & [= <-] & ? & ? & ?). congruence.
Defined.

#[global] Instance heldByStaleLeader_dec c replica s : Decision (heldByStaleLeader c replica s).
Proof.
  unfold heldByStaleLeader.
  destruct (GetShardLeader c replica (GetInsertChannel s)) as [leaderID|] eqn:Hl;
    [|right; intros (? & ? & ? & _); discriminate].
  destruct (GetLeaderShardView c leaderID (GetInsertChannel s)) as [view|] eqn:Hv;
    [|right; intros (? & ? & [= <-] & ? & _); congruence].
  destruct (decide (is_Some (CollectionManager_GetPartition c
                               (datapb.PartitionID (meta.SegmentInfo s))))) as [Hp|Hp];
    [|right; intros (? & ? & _ & _ & ? & _); contradiction].
  destruct (decide (meta.TargetVersion view ≠ initialTargetVersion)) as [Hi|Hi];
    [|right; intros (? & ? & [= <-] & ? & _ & ? & _); simplify_eq; tauto].
  destruct (decide (meta.TargetVersion view
                    < GetCollectionTargetVersion c (GetCollectionID s) meta.CurrentTarget))
    as [Hc|Hc]; [|right; intros (? & ? & [= <-] & ? & _ & _ & ?); simplify_eq; lia].
  left. exists leaderID, view. auto.
Defined.

(** Node 1 leads every channel and serves, according to its view, the
    segments in [served]; it has adopted target version [adopted] while the
    current target version is [current]. *)
Definition viewOf (adopted : Z) (served : gmap Z querypb.SegmentDist) : meta.LeaderView :=
  {| meta.ID := 1; meta.TargetVersion := adopted;
     meta.GrowingSegments := ∅; meta.Segments := served |}.

Definition withLeader (dist : list meta.Segment) (view : option meta.LeaderView)
    (current : Z) : Snapshot :=
  {| active := true; collections := [100]; partitions := [10];
     replicas := [replica1]; placements := dist;
     shardLeader := Some 1; leaderView := view; currentVersion := current;
     nextSealed := ∅; currentSealed := ∅; channels := ∅;
     stoppingNodes := []; unknownNodes := []; outboundNodes := ∅ |}.

(** The leader serves segment 7 from node 2 and segment 8 from node 1. *)
Definition servingLeader : SegmentChecker :=
  checkerOf (withLeader [] (Some (viewOf 3 {[7 := {| querypb.NodeID := 2; querypb.Version := 1 |};
                                            8 := {| querypb.NodeID := 1; querypb.Version := 1 |}]})) 3).

(** The leader still reads target version 2 while the current one is 3. *)
Definition staleLeader : SegmentChecker :=
  checkerOf (withLeader [] (Some (viewOf 2 ∅)) 3).

(** A shard leader resolves for the channel of segment 7, which no target
    lists any more, but the leader has not registered its view yet. *)
Definition leaderWithoutView : SegmentChecker :=
  checkerOf (withLeader [placement 7 1 1] None 3).

(** A segment of collection 200, which is not a live collection, still
    reported by node 2. *)
Definition orphan : meta.Segment :=
  {| meta.SegmentInfo :=
       {| datapb.ID := 50; datapb.CollectionID := 200; datapb.PartitionID := 10;
          datapb.InsertChannel := "dml_9"; datapb.Level := datapb.SegmentLevel_Normal;
          datapb.StartPosition := None |};
     meta.Node := 2; meta.Version := 4 |}.

(** The leader serves the orphan and lags behind the current target, so both
    staleness filters would hold a release of it back. *)
Definition releasedCollection : SegmentChecker :=
  checkerOf (withLeader [orphan]
               (Some (viewOf 2 {[50 := {| querypb.NodeID := 2; querypb.Version := 4 |}]})) 3).

(** The [Reduce] action [createSegmentReduceTasks] builds for a placement. *)
Definition reduceAction (s : meta.Segment) (scope : querypb.DataScope) : task.SegmentAction :=
  task.NewSegmentActionWithScope (meta.Node s) task.ActionTypeReduce
    (GetInsertChannel s) (GetID s) scope.

(** Replica 1 with node 1 stopping, node 2 outbound and node 3 unknown to
    the node manager, so that no node is available for loading. *)
Definition noNodeAvailable : SegmentChecker :=
  checkerOf
    {| active := true; collections := [100]; partitions := [10];
       replicas := [replica1]; placements := [];
       shardLeader := Some 1; leaderView := Some (viewOf 3 ∅); currentVersion := 3;
       nextSealed := {[7 := sealedInfo 7 datapb.SegmentLevel_Normal]};
       currentSealed := ∅; channels := ∅;
       stoppingNodes := [1]; unknownNodes := [3]; outboundNodes := {[2]} |}.

(** The next target lists the L0 segment 7 and the normal segments 8 and 9;
    the replica holds none of them. *)
Definition level0Pending : SegmentChecker :=
  checkerOf
    {| active := true; collections := [100]; partitions := [10];
       replicas := [replica1]; placements := [];
       shardLeader := Some 1; leaderView := Some (viewOf 3 ∅); currentVersion := 3;
       nextSealed := {[7 := sealedInfo 7 datapb.SegmentLevel_L0;
                       8 := sealedInfo 8 datapb.SegmentLevel_Normal]};
       currentSealed := {[9 := sealedInfo 9 datapb.SegmentLevel_Normal]};
       channels := ∅;
       stoppingNodes := []; unknownNodes := []; outboundNodes := ∅ |}.

(** ** The growing-segment differ, as the specification words it *)

(** The growing segment [g] is behind the watermark of its channel in the
    current target of [collectionID], and neither target lists it. *)
Definition behindWatermark (c : SegmentChecker) (collectionID : Z) (g : meta.Segment) : Prop :=
  (GetID g ∉ GetGrowingSegmentsByCollection c collectionID meta.CurrentTarget)
  ∧ (GetID g ∉ GetGrowingSegmentsByCollection c collectionID meta.NextTarget)
  ∧ ∃ channel,
      GetDmChannelsByCollection c collectionID meta.CurrentTarget !! GetInsertChannel g
        = Some channel
      ∧ datapb.GetTimestamp (GetStartPosition g) < datapb.GetTimestamp (GetSeekPosition channel).

(** Some channel the replica leads has a registered leader view that has
    adopted the current target version and holds [g] as a growing segment. *)
Definition onCaughtUpLeader (c : SegmentChecker) (collectionID : Z)
    (replica : querypb.Replica) (g : meta.Segment) : Prop :=
  ∃ channelName node view key,
    GetShardLeadersByReplica c replica !! channelName = Some node
    ∧ GetLeaderShardView c node channelName = Some view
    ∧ meta.TargetVersion view = GetCollectionTargetVersion c collectionID meta.CurrentTarget
    ∧ meta.GrowingSegments view !! key = Some g.

(** A growing segment of collection 100 on channel dml_0, held by node 1,
    whose first message has timestamp [start]. *)
Definition growing (segmentID start : Z) : meta.Segment :=
  {| meta.SegmentInfo :=
       {| datapb.ID := segmentID; datapb.CollectionID := 100; datapb.PartitionID := 10;
          datapb.InsertChannel := "dml_0"; datapb.Level := datapb.SegmentLevel_Normal;
          datapb.StartPosition := Some {| datapb.Timestamp := start |} |};
     meta.Node := 1; meta.Version := 1 |}.

(** Node 1 leads dml_0, whose seek position in the current target is 100;
    its view has adopted the current target version 3 and holds the growing
    segments 21, started at 50, and 22, started at 200. *)
Definition growingBehind : SegmentChecker :=
  checkerOf
    {| active := true; collections := [100]; partitions := [10];
       replicas := [replica1]; placements := [];
       shardLeader := Some 1;
       leaderView := Some {| meta.ID := 1; meta.TargetVersion := 3;
                             meta.GrowingSegments := {[21 := growing 21 50; 22 := growing 22 200]};
                             meta.Segments := ∅ |};
       currentVersion := 3;
       nextSealed := ∅; currentSealed := ∅;
       channels := {["dml_0" := {| meta.VchannelInfo :=
                                     {| datapb.SeekPosition := Some {| datapb.Timestamp := 100 |} |} |}]};
       stoppingNodes := []; unknownNodes := []; outboundNodes := ∅ |}.


(** ** Notions used to state further properties of the checker *)

(** A shard leader resolves for the channel of [s], but that leader has no
    view registered for the channel. *)
Definition leaderViewMissing (c : SegmentChecker) (replica : querypb.Replica)
    (s : meta.Segment) : Prop :=
  ∃ leaderID,
    GetShardLeader c replica (GetInsertChannel s) = Some leaderID
    ∧ GetLeaderShardView c leaderID (GetInsertChannel s) = None.

(** The target segment [segment], listed under [segmentID], is not in the
    distribution map, or it is an L0 segment that the map puts on another
    node than the latest leader of its channel. *)
Definition missingOrMisplaced (c : SegmentChecker) (replica : querypb.Replica)
    (distMap : gmap Z Z) (segmentID : Z) (segment : datapb.SegmentInfo) : Prop :=
  distMap !! segmentID = None
  ∨ (isLevel0 segment
     ∧ ∃ node leader,
         distMap !! segmentID = Some node
         ∧ GetLatestLeadersByReplicaShard c replica (datapb.InsertChannel segment)
           = Some leader
         ∧ node ≠ meta.ID leader).

(** Neither target lists the segment of the placement [s]. *)
Definition untargeted (nextTargetMap currentTargetMap : gmap Z datapb.SegmentInfo)
    (s : meta.Segment) : Prop :=
  nextTargetMap !! GetID s = None ∧ currentTargetMap !! GetID s = None.

#[global] Instance untargeted_dec nextTargetMap currentTargetMap s :
  Decision (untargeted nextTargetMap currentTargetMap s).
Proof. unfold untargeted. apply _. Defined.

(** The task [createSegmentReduceTasks] obtains for one placement, if any. *)
Definition reduceTaskOf (c : SegmentChecker) (replica : querypb.Replica)
    (scope : querypb.DataScope) (s : meta.Segment) : option task.Task :=
  match NewSegmentTask c (GetCollectionID s) replica (reduceAction s scope) with
  | Ret t => Some t
  | Err _ => None
  end.

(** The plans [createSegmentLoadTasks] obtains for the segments of one
    shard: none when the shard has no leader yet; otherwise the balancer's
    plans over the leader's node alone for a batch of L0 segments, and over
    [availableNodes] for any other batch, each plan stamped with the
    replica. *)
Definition shardPlans (c : SegmentChecker) (replica : querypb.Replica) (isLevel0 : bool)
    (availableNodes : list Z) (entry : string * list datapb.SegmentInfo)
    : list balance.SegmentAssignPlan :=
  match GetLatestLeadersByReplicaShard c replica entry.1 with
  | None => []
  | Some leader =>
      (λ p, {| balance.Segment := balance.Segment p;
               balance.Replica := Some replica;
               balance.From := balance.From p;
               balance.To := balance.To p |})
        <$> AssignSegment c (querypb.CollectionID replica)
              ((λ s, {| meta.SegmentInfo := s; meta.Node := 0; meta.Version := 0 |})
                 <$> entry.2)
              (if isLevel0 then [meta.ID leader] else availableNodes) false
  end.

(** The tasks [checkReplica] returns for a replica it handles without a
    fault. *)
Definition tasksOfReplica (rt : GoRuntime) (c : SegmentChecker) (replica : querypb.Replica)
    : list task.Task :=
  match checkReplica rt c replica with
  | Ok tasks => tasks
  | Panic => []
  end.

(** Replica 1 holds segment 5, which no target lists, and segment 8; the
    next target lists the L0 segment 7 and segment 8.  Node 3 is the latest
    leader of every channel. *)
Definition strayAndPending : SegmentChecker :=
  checkerOf
    {| active := true; collections := [100]; partitions := [10];
       replicas := [replica1]; placements := [placement 5 1 1; placement 8 2 1];
       shardLeader := Some 3;
       leaderView := Some {| meta.ID := 3; meta.TargetVersion := 3;
                             meta.GrowingSegments := ∅; meta.Segments := ∅ |};
       currentVersion := 3;
       nextSealed := {[7 := sealedInfo 7 datapb.SegmentLevel_L0;
                       8 := sealedInfo 8 datapb.SegmentLevel_Normal]};
       currentSealed := ∅; channels := ∅;
       stoppingNodes := []; unknownNodes := []; outboundNodes := ∅ |}.

(** No collection is live any more, and node 2 still reports the orphan. *)
Definition nothingLive : SegmentChecker :=
  checkerOf
    {| active := true; collections := []; partitions := [];
       replicas := [replica1]; placements := [orphan];
       shardLeader := Some 1; leaderView := None; currentVersion := 3;
       nextSealed := ∅; currentSealed := ∅; channels := ∅;
       stoppingNodes := []; unknownNodes := []; outboundNodes := ∅ |}.


(** As [growingBehind], but the leader still reads target version 2 while
    the current target version is 3. *)
Definition growingStale : SegmentChecker :=
  checkerOf
    {| active := true; collections := [100]; partitions := [10];
       replicas := [replica1]; placements := [];
       shardLeader := Some 1;
       leaderView := Some {| meta.ID := 1; meta.TargetVersion := 2;
                             meta.GrowingSegments := {[21 := growing 21 50; 22 := growing 22 200]};
                             meta.Segments := ∅ |};
       currentVersion := 3;
       nextSealed := ∅; currentSealed := ∅;
       channels := {["dml_0" := {| meta.VchannelInfo :=
                                     {| datapb.SeekPosition := Some {| datapb.Timestamp := 100 |} |} |}]};
       stoppingNodes := []; unknownNodes := []; outboundNodes := ∅ |}.


(** As [strayAndPending], with node 2 also reporting the orphan of the
    released collection 200. *)
Definition liveAndReleased : SegmentChecker :=
  checkerOf
    {| active := true; collections := [100]; partitions := [10];
       replicas := [replica1];
       placements := [placement 5 1 1; placement 8 2 1; orphan];
       shardLeader := Some 3;
       leaderView := Some {| meta.ID := 3; meta.TargetVersion := 3;
                             meta.GrowingSegments := ∅; meta.Segments := ∅ |};
       currentVersion := 3;
       nextSealed := {[7 := sealedInfo 7 datapb.SegmentLevel_L0;
                       8 := sealedInfo 8 datapb.SegmentLevel_Normal]};
       currentSealed := ∅; channels := ∅;
       stoppingNodes := []; unknownNodes := []; outboundNodes := ∅ |}.

(** Node 1 still reports segment 7 of the live collection 100, which no
    target lists, and node 2 the orphan of the released collection 200; a
    shard leader resolves for every channel but has registered no view. *)
Definition orphanBehindMissingView : SegmentChecker :=
  checkerOf (withLeader [placement 7 1 1; orphan] None 3).

(** The next target lists the L0 segment 7, which the replica does not hold;
    node 1, the latest leader of every channel, is stopping. *)
Definition stoppingLeader : SegmentChecker :=
  checkerOf
    {| active := true; collections := [100]; partitions := [10];
       replicas := [replica1]; placements := [];
       shardLeader := Some 1; leaderView := Some (viewOf 3 ∅); currentVersion := 3;
       nextSealed := {[7 := sealedInfo 7 datapb.SegmentLevel_L0]};
       currentSealed := ∅; channels := ∅;
       stoppingNodes := [1]; unknownNodes := []; outboundNodes := ∅ |}.

(** ** The duplicate resolver: the loop invariant *)

Section RepeatedInvariant.
Variable c : SegmentChecker.

#[local] Abbreviation notL0 := (notL0 c).
#[local] Abbreviation repeated_inv := (repeated_inv c).

Lemma trackedPlacements_insert_fresh versions k s :
  versions !! k = None →
  trackedPlacements (<[k := s]> versions) ≡ₚ s :: trackedPlacements versions.
Proof.
  intros Hk. unfold trackedPlacements.
  rewrite (map_to_list_insert versions k s Hk). reflexivity.
Qed.

Lemma trackedPlacements_lookup versions k s :
  versions !! k = Some s →
  trackedPlacements versions ≡ₚ s :: trackedPlacements (delete k versions).
Proof.
  intros Hk. unfold trackedPlacements.
  rewrite <- (map_to_list_delete versions k s Hk). reflexivity.
Qed.

Lemma trackedPlacements_replace versions k old s :
  versions !! k = Some old →
  old :: trackedPlacements (<[k := s]> versions) ≡ₚ s :: trackedPlacements versions.
Proof.
  intros Hk.
  rewrite (trackedPlacements_lookup versions k old Hk).
  rewrite <- (insert_delete_eq versions k s).
  rewrite trackedPlacements_insert_fresh by apply lookup_delete_eq.
  apply perm_swap.
Qed.

Lemma repeated_inv_init : repeated_inv [] ([], ∅).
Proof.
  split; simpl.
  - unfold trackedPlacements. rewrite map_to_list_empty. reflexivity.
  - intros k s H. rewrite lookup_empty in H. discriminate.
  - intros k s t H. rewrite lookup_empty in H. discriminate.
  - intros t H. inversion H.
Qed.

Lemma repeated_inv_skip processed st s :
  isL0Segment c s = true →
  repeated_inv processed st → repeated_inv (processed ++ [s]) st.
Proof.
  intros HL0 [Hsplit Hkey Hmax Hcover].
  assert (Hnot : ¬ notL0 s) by (unfold notL0; rewrite HL0; discriminate).
  split.
  - rewrite filter_app, filter_cons_False, filter_nil, app_nil_r by exact Hnot.
    exact Hsplit.
  - exact Hkey.
  - intros k m t Hm Ht Hn Hid.
    apply elem_of_app in Ht as [Ht | Ht].
    + eapply Hmax; eauto.
    + apply list_elem_of_singleton in Ht. subst t. contradiction.
  - intros t Ht Hn.
    apply elem_of_app in Ht as [Ht | Ht].
    + apply Hcover; assumption.
    + apply list_elem_of_singleton in Ht. subst t. contradiction.
Qed.

Lemma repeated_inv_step processed st s :
  repeated_inv processed st → repeated_inv (processed ++ [s]) (repeatedStep c st s).
Proof.
  intros Hinv. destruct st as [segments versions].
  unfold repeatedStep.
  destruct (isL0Segment c s) eqn:HL0.
  { apply repeated_inv_skip; assumption. }
  destruct Hinv as [Hsplit Hkey Hmax Hcover]. simpl in *.
  assert (Hfilter : filter notL0 (processed ++ [s]) = filter notL0 processed ++ [s]).
  { rewrite filter_app, filter_cons_True, filter_nil by exact HL0. reflexivity. }
  destruct (versions !! GetID s) as [maxVer|] eqn:Hlook.
  - case_bool_decide as Hle.
    + (* the tracked placement is displaced and released *)
      split; simpl.
      * rewrite Hfilter, <- Hsplit, <- !app_assoc.
        apply Permutation_app_head. simpl.
        rewrite (trackedPlacements_replace versions _ maxVer s Hlook).
        apply Permutation_cons_append.
      * intros k m Hm. destruct (decide (GetID s = k)) as [<-|Hne].
        -- rewrite lookup_insert_eq in Hm. congruence.
        -- rewrite lookup_insert_ne in Hm by exact Hne. eauto.
      * intros k m t Hm Ht Hn Hid.
        destruct (decide (GetID s = k)) as [<-|Hne].
        -- rewrite lookup_insert_eq in Hm. injection Hm as <-.
           apply elem_of_app in Ht as [Ht | Ht].
           ++ specialize (Hmax _ _ _ Hlook Ht Hn Hid). lia.
           ++ apply list_elem_of_singleton in Ht. subst t. lia.
        -- rewrite lookup_insert_ne in Hm by exact Hne.
           apply elem_of_app in Ht as [Ht | Ht]; [eauto|].
           apply list_elem_of_singleton in Ht. subst t. congruence.
      * intros t Ht Hn.
        destruct (decide (GetID s = GetID t)) as [Heq|Hne].
        -- rewrite <- Heq, lookup_insert_eq. eauto.
        -- rewrite lookup_insert_ne by exact Hne.
           apply elem_of_app in Ht as [Ht | Ht]; [eauto|].
           apply list_elem_of_singleton in Ht. subst t. congruence.
    + (* the incoming placement is older and released *)
      split; simpl.
      * rewrite Hfilter, <- Hsplit, <- !app_assoc.
        apply Permutation_app_head. apply Permutation_app_comm.
      * exact Hkey.
      * intros k m t Hm Ht Hn Hid.
        apply elem_of_app in Ht as [Ht | Ht]; [eauto|].
        apply list_elem_of_singleton in Ht. subst t.
        rewrite Hid in Hlook. rewrite Hlook in Hm. injection Hm as <-. lia.
      * intros t Ht Hn.
        apply elem_of_app in Ht as [Ht | Ht]; [eauto|].
        apply list_elem_of_singleton in Ht. subst t. eauto.
  - (* first placement of this segment *)
    split; simpl.
    + rewrite Hfilter, <- Hsplit, <- !app_assoc.
      apply Permutation_app_head.
      rewrite (trackedPlacements_insert_fresh versions _ s Hlook).
      apply Permutation_cons_append.
    + intros k m Hm. destruct (decide (GetID s = k)) as [<-|Hne].
      * rewrite lookup_insert_eq in Hm. congruence.
      * rewrite lookup_insert_ne in Hm by exact Hne. eauto.
    + intros k m t Hm Ht Hn Hid.
      destruct (decide (GetID s = k)) as [<-|Hne].
      * rewrite lookup_insert_eq in Hm. injection Hm as <-.
        apply elem_of_app in Ht as [Ht | Ht].
        -- destruct (Hcover t Ht Hn) as [m Hm]. rewrite Hid in Hm. congruence.
        -- apply list_elem_of_singleton in Ht. subst t. lia.
      * rewrite lookup_insert_ne in Hm by exact Hne.
        apply elem_of_app in Ht as [Ht | Ht]; [eauto|].
        apply list_elem_of_singleton in Ht. subst t. congruence.
    + intros t Ht Hn.
      destruct (decide (GetID s = GetID t)) as [Heq|Hne].
      * rewrite <- Heq, lookup_insert_eq. eauto.
      * rewrite lookup_insert_ne by exact Hne.
        apply elem_of_app in Ht as [Ht | Ht]; [eauto|].
        apply list_elem_of_singleton in Ht. subst t. congruence.
Qed.

Lemma repeated_inv_foldl l : ∀ processed st,
  repeated_inv processed st →
  repeated_inv (processed ++ l) (foldl (repeatedStep c) st l).
Proof.
  induction l as [|s l IH]; intros processed st Hinv; simpl.
  - rewrite app_nil_r. exact Hinv.
  - replace (processed ++ s :: l) with ((processed ++ [s]) ++ l)
      by (rewrite <- app_assoc; reflexivity).
    apply IH. apply repeated_inv_step. exact Hinv.
Qed.

Lemma repeatedLoop_inv dist : repeated_inv dist (repeatedLoop c dist).
Proof. apply (repeated_inv_foldl dist [] ([], ∅)), repeated_inv_init. Qed.

End RepeatedInvariant.

(** ** The duplicate resolver: which placement is displaced *)

Section RepeatedOrder.
Variable c : SegmentChecker.









(** Every tracked placement is one of the placements processed. *)
Lemma repeated_inv_tracked_elem processed st k m :
  repeated_inv c processed st → st.2 !! k = Some m →
  m ∈ processed ∧ notL0 c m ∧ GetID m = k.
Proof.
  intros Hinv Hm.
  assert (m ∈ filter (notL0 c) processed) as Hin.
  { rewrite <- (inv_split Hinv). apply elem_of_app. right.
    unfold trackedPlacements. apply list_elem_of_fmap.
    exists (k, m). split; [reflexivity|]. apply elem_of_map_to_list. exact Hm. }
  apply list_elem_of_filter in Hin as [Hn Hin].
  repeat split; [exact Hin | exact Hn | eapply inv_key; eauto].
Qed.

End RepeatedOrder.

(** ** The claims *)

(** C1. For a replica, [findRepeatedSealedSegments] splits the placements
    whose segment is not an L0 segment of the target into the released ones
    (its result) and the tracked ones, exactly one per segment id, which
    carries the highest version among that segment's placements.  In
    particular, when the distribution is, in any order, three placements
    [a], [b], [d] of one segment with versions v1 < v2 < v3, the tracked
    placement is [d] and the released ones are [a] and [b]. *)
Theorem findRepeatedSealedSegments_keeps_highest_version
    (c : SegmentChecker) (replicaID : Z) (replica : querypb.Replica) :
  meta_Get c replicaID = Some replica →
  let dist := getSealedSegmentsDist c replica in
  let versions := (repeatedLoop c dist).2 in
  findRepeatedSealedSegments c replicaID ++ trackedPlacements versions
    ≡ₚ filter (notL0 c) dist
  ∧ (∀ t, t ∈ dist → notL0 c t →
       ∃ s, versions !! GetID t = Some s ∧ GetID s = GetID t
            ∧ meta.Version t ≤ meta.Version s)
  ∧ (∀ k s, versions !! k = Some s → s ∈ dist ∧ notL0 c s ∧ GetID s = k)
  ∧ (∀ a b d,
       dist ≡ₚ [a; b; d] → notL0 c a → notL0 c b → notL0 c d →
       GetID a = GetID b → GetID b = GetID d →
       meta.Version a < meta.Version b → meta.Version b < meta.Version d →
       versions = {[GetID d := d]}
       ∧ findRepeatedSealedSegments c replicaID ≡ₚ [a; b]).
Proof.
  intros Hget dist versions.
  unfold findRepeatedSealedSegments. rewrite Hget. fold dist.
  pose proof (repeatedLoop_inv c dist) as Hinv.
  assert (Hfirst : ∀ t, t ∈ dist → notL0 c t →
            ∃ s, versions !! GetID t = Some s ∧ GetID s = GetID t
                 ∧ meta.Version t ≤ meta.Version s).
  { intros t Ht Hn. destruct (inv_cover Hinv t Ht Hn) as [s Hs].
    exists s. split; [exact Hs|]. split.
    - eapply (inv_key Hinv); eauto.
    - eapply (inv_max Hinv); eauto. }
  assert (Htracked : ∀ k s, versions !! k = Some s → s ∈ dist ∧ notL0 c s ∧ GetID s = k).
  { intros k s Hs. eapply repeated_inv_tracked_elem; eauto. }
  split; [exact (inv_split Hinv)|].
  split; [exact Hfirst|].
  split; [exact Htracked|].
  intros a b d Hperm Ha Hb Hd Hab Hbd Hlt1 Hlt2.
  assert (Hin : ∀ t, t ∈ dist ↔ t = a ∨ t = b ∨ t = d).
  { intros t. rewrite Hperm, !elem_of_cons, elem_of_nil. tauto. }
  assert (Hvd : versions !! GetID d = Some d).
  { destruct (Hfirst d) as (s & Hs & _ & Hle); [apply Hin; auto | exact Hd |].
    destruct (Htracked _ _ Hs) as (Hsin & _ & _).
    apply Hin in Hsin as [-> | [-> | ->]]; [lia | lia | exact Hs]. }
  assert (Hmap : versions = {[GetID d := d]}).
  { apply map_eq. intros k. destruct (decide (k = GetID d)) as [->|Hne].
    - rewrite lookup_singleton_eq. exact Hvd.
    - rewrite lookup_singleton_ne by congruence.
      destruct (versions !! k) as [s|] eqn:Hs; [|reflexivity].
      destruct (Htracked _ _ Hs) as (Hsin & _ & Hk).
      apply Hin in Hsin as [-> | [-> | ->]]; congruence. }
  split; [exact Hmap|].
  pose proof (inv_split Hinv) as Hsplit. fold versions in Hsplit.
  rewrite Hmap in Hsplit. unfold trackedPlacements in Hsplit.
  rewrite map_to_list_singleton in Hsplit. simpl in Hsplit.
  assert (Hfil : filter (notL0 c) dist ≡ₚ [a; b; d]).
  { rewrite Hperm. rewrite !filter_cons_True by assumption. reflexivity. }
  rewrite Hfil in Hsplit.
  apply (Permutation_app_inv_r [d]). rewrite Hsplit. reflexivity.
Qed.

Lemma findRepeatedSealedSegments_keeps_highest_version_witness :
  meta_Get threeVersions 1 = Some replica1
  ∧ findRepeatedSealedSegments threeVersions 1 ≡ₚ [placement 7 2 1; placement 7 3 2].
Proof.
  split; [reflexivity|].
  pose proof (findRepeatedSealedSegments_keeps_highest_version
                threeVersions 1 replica1 eq_refl) as (_ & _ & _ & Hthree).
  apply (Hthree (placement 7 2 1) (placement 7 3 2) (placement 7 1 3));
    try reflexivity; try (vm_compute; reflexivity).
  change (getSealedSegmentsDist threeVersions replica1)
    with ([placement 7 1 3] ++ [placement 7 2 1; placement 7 3 2]).
  apply Permutation_app_comm.
Defined.




(** ** The staleness filters *)

(** A loop that appends the elements satisfying [P] computes [filter P]. *)
Lemma forEach_filter {A} (body : list A → A → result (list A))
    (P : A → Prop) `{∀ x, Decision (P x)} (l : list A) :
  (∀ filtered x, x ∈ l →
     body filtered x = Ok (if decide (P x) then filtered ++ [x] else filtered)) →
  ∀ filtered, forEach body filtered l = Ok (filtered ++ filter P l).
Proof.
  induction l as [|x l IH]; intros Hbody filtered; simpl.
  - rewrite filter_nil, app_nil_r. reflexivity.
  - rewrite Hbody by left. simpl.
    rewrite IH by (intros acc y Hy; apply Hbody; right; exact Hy).
    rewrite filter_cons. destruct (decide (P x)).
    + rewrite <- app_assoc. reflexivity.
    + reflexivity.
Qed.

(** A loop whose body faults on some element faults. *)
Lemma forEach_panic {A S} (body : S → A → result S) (l : list A) (x : A) :
  x ∈ l → (∀ st, body st x = Panic) → ∀ st, forEach body st l = Panic.
Proof.
  induction l as [|y l IH]; intros Hx Hbody st; [inversion Hx|].
  simpl. apply elem_of_cons in Hx as [<- | Hx].
  - rewrite Hbody. reflexivity.
  - destruct (body st y); simpl; [apply IH; assumption | reflexivity].
Qed.

(** Provided every candidate whose shard leader resolves has its leader
    view registered, [filterExistedOnLeader] returns its input, in order,
    without exactly the candidates for which no shard leader resolves or
    which the leader's view maps to the node they were reported on; a
    candidate the leader reports on another node passes through. *)
Theorem filterExistedOnLeader_drops_served
    (c : SegmentChecker) (replica : querypb.Replica) (segments : list meta.Segment) :
  (∀ s, s ∈ segments → leaderViewRegistered c replica s) →
  filterExistedOnLeader c replica segments
  = Ok (filter (λ s, ¬ (noShardLeader c replica s ∨ servedByLeader c replica s)) segments).
Proof.
  intros Hreg. unfold filterExistedOnLeader.
  rewrite (forEach_filter _
             (λ s, ¬ (noShardLeader c replica s ∨ servedByLeader c replica s))).
  { reflexivity. }
  intros filtered s Hs. specialize (Hreg s Hs).
  destruct (decide (¬ (noShardLeader c replica s ∨ servedByLeader c replica s)))
    as [Hkeep | Hdrop];
    unfold leaderViewRegistered, noShardLeader, servedByLeader in *.
  - (* kept: a leader resolves and does not serve the segment from this node *)
    destruct (GetShardLeader c replica (GetInsertChannel s)) as [leaderID|] eqn:Hl;
      [|exfalso; apply Hkeep; left; reflexivity].
    destruct (Hreg leaderID eq_refl) as [view Hv]. rewrite Hv. simpl.
    destruct (meta.Segments view !! GetID s) as [seg|] eqn:Hseg; [|reflexivity].
    case_bool_decide as Hn; [|reflexivity].
    exfalso. apply Hkeep. right. exists leaderID, view, seg. auto.
  - (* dropped *)
    destruct (GetShardLeader c replica (GetInsertChannel s)) as [leaderID|] eqn:Hl;
      [|reflexivity].
    destruct (Hreg leaderID eq_refl) as [view Hv]. rewrite Hv. simpl.
    destruct (meta.Segments view !! GetID s) as [seg|] eqn:Hseg.
    + case_bool_decide as Hn; [reflexivity|].
      exfalso. apply Hdrop.
      intros [? | (? & ? & ? & ? & ? & ? & ?)]; simplify_eq.
    + exfalso. apply Hdrop.
      intros [? | (? & ? & ? & ? & ? & ? & ?)]; simplify_eq.
Qed.

Lemma filterExistedOnLeader_drops_served_witness :
  (∀ s, s ∈ [placement 7 1 1; placement 7 2 2; placement 8 1 1; placement 9 3 1] →
        leaderViewRegistered servingLeader replica1 s)
  ∧ filterExistedOnLeader servingLeader replica1
      [placement 7 1 1; placement 7 2 2; placement 8 1 1; placement 9 3 1]
    = Ok [placement 7 1 1; placement 9 3 1].
Proof.
  assert (∀ s, s ∈ [placement 7 1 1; placement 7 2 2; placement 8 1 1; placement 9 3 1] →
               leaderViewRegistered servingLeader replica1 s) as Hreg.
  { intros s _ leaderID _. simpl. eauto. }
  split; [exact Hreg|].
  rewrite (filterExistedOnLeader_drops_served servingLeader replica1 _ Hreg).
  vm_compute. reflexivity.
Defined.

(** Provided every candidate whose shard leader resolves has its leader
    view registered, [filterSegmentInUse] returns its input, in order,
    without exactly the candidates for which no shard leader resolves or
    whose partition still exists while the leader's adopted target version
    is neither the initial version nor yet the current one. *)
Theorem filterSegmentInUse_drops_in_use
    (c : SegmentChecker) (replica : querypb.Replica) (segments : list meta.Segment) :
  (∀ s, s ∈ segments → leaderViewRegistered c replica s) →
  filterSegmentInUse c replica segments
  = Ok (filter (λ s, ¬ (noShardLeader c replica s ∨ heldByStaleLeader c replica s)) segments).
Proof.
  intros Hreg. unfold filterSegmentInUse.
  rewrite (forEach_filter _
             (λ s, ¬ (noShardLeader c replica s ∨ heldByStaleLeader c replica s))).
  { reflexivity. }
  intros filtered s Hs. specialize (Hreg s Hs).
  destruct (decide (¬ (noShardLeader c replica s ∨ heldByStaleLeader c replica s)))
    as [Hkeep | Hdrop];
    unfold leaderViewRegistered, noShardLeader, heldByStaleLeader in *.
  - (* kept *)
    destruct (GetShardLeader c replica (GetInsertChannel s)) as [leaderID|] eqn:Hl;
      [|exfalso; apply Hkeep; left; reflexivity].
    destruct (Hreg leaderID eq_refl) as [view Hv]. rewrite Hv. simpl.
    destruct (bool_decide (is_Some _) && _) eqn:Hcond; [|reflexivity].
    exfalso. apply Hkeep. right. exists leaderID, view.
    apply andb_true_iff in Hcond as [Hp Hstale].
    apply andb_true_iff in Hstale as [Hi Hc].
    apply bool_decide_eq_true in Hp, Hi, Hc. auto.
  - (* dropped *)
    destruct (GetShardLeader c replica (GetInsertChannel s)) as [leaderID|] eqn:Hl;
      [|reflexivity].
    destruct (Hreg leaderID eq_refl) as [view Hv]. rewrite Hv. simpl.
    destruct (bool_decide (is_Some _) && _) eqn:Hcond; [reflexivity|].
    exfalso. apply Hdrop.
    intros [? | (? & ? & ? & ? & Hp & Hi & Hc)]; simplify_eq.
    rewrite !bool_decide_eq_true_2 in Hcond by assumption. discriminate.
Qed.

Lemma filterSegmentInUse_drops_in_use_witness :
  (∀ s, s ∈ [placement 7 1 1; placement 8 2 1] → leaderViewRegistered staleLeader replica1 s)
  ∧ filterSegmentInUse staleLeader replica1 [placement 7 1 1; placement 8 2 1] = Ok []
  ∧ filterSegmentInUse servingLeader replica1 [placement 7 1 1; placement 8 2 1]
    = Ok [placement 7 1 1; placement 8 2 1].
Proof.
  assert (∀ c s, c = staleLeader ∨ c = servingLeader →
                 leaderViewRegistered c replica1 s) as Hreg.
  { intros c s [-> | ->] leaderID _; simpl; eauto. }
  split; [intros s _; apply Hreg; auto|]. split.
  - rewrite (filterSegmentInUse_drops_in_use staleLeader replica1 _
               (λ s _, Hreg staleLeader s (or_introl eq_refl))).
    vm_compute. reflexivity.
  - rewrite (filterSegmentInUse_drops_in_use servingLeader replica1 _
               (λ s _, Hreg servingLeader s (or_intror eq_refl))).
    vm_compute. reflexivity.
Defined.

(** C5. The code faults where the claim says it cannot: when a shard leader
    resolves for a candidate's channel but no leader view is registered for
    that leader and channel, both filters dereference the nil view, and so
    does [Check] on its way through [checkReplica]. *)
Theorem Check_faults_without_leader_view :
  GetShardLeader leaderWithoutView replica1 (GetInsertChannel (placement 7 1 1)) = Some 1
  ∧ GetLeaderShardView leaderWithoutView 1 (GetInsertChannel (placement 7 1 1)) = None
  ∧ filterSegmentInUse leaderWithoutView replica1 [placement 7 1 1] = Panic
  ∧ filterExistedOnLeader leaderWithoutView replica1 [placement 7 1 1] = Panic
  ∧ (getSealedSegmentDiff stable_runtime leaderWithoutView 100 1).2 = [placement 7 1 1]
  ∧ Check stable_runtime leaderWithoutView = Panic.
Proof.
  repeat split; vm_compute; reflexivity.
Qed.

(** C4. The code departs from the claim.  On [leaderWithoutView] a shard
    leader resolves for the channel of the candidate, so the candidate is
    not dropped for want of a leader; no view is registered, so no leader's
    adopted target version holds it back either.  The claim has such a
    candidate pass through unchanged; [filterSegmentInUse] reads the target
    version of the nil view and faults instead. *)
Theorem filterSegmentInUse_faults_on_passing_candidate :
  ¬ noShardLeader leaderWithoutView replica1 (placement 7 1 1)
  ∧ ¬ heldByStaleLeader leaderWithoutView replica1 (placement 7 1 1)
  ∧ filterSegmentInUse leaderWithoutView replica1 [placement 7 1 1] = Panic
  ∧ (filterSegmentInUse leaderWithoutView replica1 [placement 7 1 1]
     ≠ Ok [placement 7 1 1]).
Proof.
  split; [unfold noShardLeader; simpl; discriminate|].
  split; [intros (leaderID & view & _ & Hview & _); simpl in Hview; discriminate|].
  split; [vm_compute; reflexivity | vm_compute; discriminate].
Qed.

(** C6. The code departs from the claim.  On [leaderWithoutView] a shard
    leader resolves for the channel of the candidate, and no leader view
    lists the candidate's segment on the candidate's node, there being no
    view at all.  The claim has such a candidate pass through unchanged;
    [filterExistedOnLeader] reads the segments of the nil view and faults
    instead. *)
Theorem filterExistedOnLeader_faults_on_unserved_candidate :
  ¬ noShardLeader leaderWithoutView replica1 (placement 7 1 1)
  ∧ ¬ servedByLeader leaderWithoutView replica1 (placement 7 1 1)
  ∧ filterExistedOnLeader leaderWithoutView replica1 [placement 7 1 1] = Panic
  ∧ (filterExistedOnLeader leaderWithoutView replica1 [placement 7 1 1]
     ≠ Ok [placement 7 1 1]).
Proof.
  split; [unfold noShardLeader; simpl; discriminate|].
  split; [intros (leaderID & view & seg & _ & Hview & _); simpl in Hview; discriminate|].
  split; [vm_compute; reflexivity | vm_compute; discriminate].
Qed.

(** ** Task creation *)

Lemma createSegmentReduceTasks_foldl (c : SegmentChecker) (replica : querypb.Replica)
    (scope : querypb.DataScope) (segments : list meta.Segment) :
  ∀ (ret : list task.Task) (t : task.Task),
    t ∈ foldl (λ ret s,
                 match NewSegmentTask c (GetCollectionID s) replica
                         (task.NewSegmentActionWithScope (meta.Node s) task.ActionTypeReduce
                            (GetInsertChannel s) (GetID s) scope) with
                 | Err _ => ret
                 | Ret t => ret ++ [t]
                 end) ret segments
    ↔ t ∈ ret
      ∨ ∃ s, s ∈ segments
             ∧ NewSegmentTask c (GetCollectionID s) replica (reduceAction s scope) = Ret t.
Proof.
  unfold reduceAction.
  induction segments as [|s segments IH]; intros ret t; simpl.
  - split; [auto|]. intros [H | (s & Hs & _)]; [exact H | inversion Hs].
  - rewrite IH. split.
    + intros [Hret | (s' & Hs' & Ht)].
      * destruct (NewSegmentTask c (GetCollectionID s) replica _) as [t'|e] eqn:Hnew;
          [|left; exact Hret].
        apply elem_of_app in Hret as [Hret | Hret]; [left; exact Hret|].
        apply list_elem_of_singleton in Hret. subst t'.
        right. exists s. split; [left | exact Hnew].
      * right. exists s'. split; [right; exact Hs' | exact Ht].
    + intros [Hret | (s' & Hs' & Ht)].
      * left. destruct (NewSegmentTask c (GetCollectionID s) replica _); [|exact Hret].
        apply elem_of_app. left. exact Hret.
      * apply elem_of_cons in Hs' as [-> | Hs'].
        -- left. rewrite Ht. apply elem_of_app. right.
           apply list_elem_of_singleton. reflexivity.
        -- right. exists s'. split; assumption.
Qed.

(** The reduce tasks are those of the segments whose task could be built. *)
Lemma elem_of_createSegmentReduceTasks (c : SegmentChecker) (segments : list meta.Segment)
    (replica : querypb.Replica) (scope : querypb.DataScope) (t : task.Task) :
  t ∈ createSegmentReduceTasks c segments replica scope
  ↔ ∃ s, s ∈ segments
         ∧ NewSegmentTask c (GetCollectionID s) replica (reduceAction s scope) = Ret t.
Proof.
  unfold createSegmentReduceTasks. rewrite createSegmentReduceTasks_foldl.
  split; [|auto]. intros [H | H]; [inversion H | exact H].
Qed.

(** When the checker is active and [Check] returns [tasks], every task
    in [tasks] has Normal priority, and for every segment of the
    distribution whose collection is not a live collection, the Reduce task
    built for it, with reason "collection released", is among [tasks]
    whatever the shard leaders and their views say. *)
Theorem Check_releases_segments_of_released_collections
    (rt : GoRuntime) (c : SegmentChecker) (tasks : list task.Task) :
  IsActive c = true →
  Check rt c = Ok tasks →
  (∀ t, t ∈ tasks → task.Priority_ t = task.TaskPriorityNormal)
  ∧ (∀ s t,
       s ∈ SegmentDistManager_GetByFilter c [] →
       GetCollectionID s ∉ CollectionManager_GetAll c →
       NewSegmentTask c (GetCollectionID s) (NilReplica c)
         (reduceAction s querypb.DataScope_Historical) = Ret t →
       task.withPriority task.TaskPriorityNormal
         (task.withReason "collection released" t) ∈ tasks).
Proof.
  intros Hactive Hcheck. unfold Check in Hcheck. rewrite Hactive in Hcheck.
  simpl in Hcheck.
  destruct (checkCollections rt c (CollectionManager_GetAll c)) as [results|];
    [|discriminate].
  simpl in Hcheck. injection Hcheck as <-.
  split.
  - intros t Ht. unfold task.SetPriority in Ht.
    apply list_elem_of_fmap in Ht as (t' & -> & _). reflexivity.
  - intros s t Hs Hdead Hnew.
    unfold task.SetPriority. apply list_elem_of_fmap.
    exists (task.withReason "collection released" t). split; [reflexivity|].
    apply elem_of_app. right.
    unfold releasedCollectionTasks, task.SetReason.
    apply list_elem_of_fmap. exists t. split; [reflexivity|].
    apply elem_of_createSegmentReduceTasks. exists s. split; [|exact Hnew].
    unfold FilterReleased. apply list_elem_of_filter. split; assumption.
Qed.

Lemma Check_releases_segments_of_released_collections_witness :
  IsActive releasedCollection = true
  ∧ servedByLeader releasedCollection replica1 orphan
  ∧ heldByStaleLeader releasedCollection replica1 orphan
  ∧ ∃ tasks,
      Check stable_runtime releasedCollection = Ok tasks
      ∧ {| task.CollectionID := 200;
           task.Replica := NilReplica releasedCollection;
           task.Actions := [reduceAction orphan querypb.DataScope_Historical];
           task.Reason := "collection released";
           task.Priority_ := task.TaskPriorityNormal |} ∈ tasks.
Proof.
  split; [reflexivity|].
  split; [apply (bool_decide_unpack _); vm_compute; exact I|].
  split; [apply (bool_decide_unpack _); vm_compute; exact I|].
  destruct (Check stable_runtime releasedCollection) as [tasks|] eqn:Hcheck;
    [|vm_compute in Hcheck; discriminate].
  exists tasks. split; [reflexivity|].
  apply (proj2 (Check_releases_segments_of_released_collections stable_runtime
                  releasedCollection tasks eq_refl Hcheck))
    with (s := orphan)
         (t := {| task.CollectionID := 200;
                  task.Replica := NilReplica releasedCollection;
                  task.Actions := [reduceAction orphan querypb.DataScope_Historical];
                  task.Reason := "";
                  task.Priority_ := task.TaskPriorityLow |}).
  - vm_compute. left.
  - vm_compute. intros H. apply list_elem_of_singleton in H. discriminate.
  - reflexivity.
Defined.

(** C9. The code departs from the claim.  On [orphanBehindMissingView] the
    checker is active, node 2 reports the orphan, whose collection 200 is
    not a live collection, and the task releasing it can be built; yet
    [Check] emits no task for it: on its way through the replica of the live
    collection 100, [checkReplica] faults in [filterSegmentInUse], before
    [Check] reaches the segments of released collections. *)
Theorem Check_faults_before_releasing_orphan :
  IsActive orphanBehindMissingView = true
  ∧ orphan ∈ SegmentDistManager_GetByFilter orphanBehindMissingView []
  ∧ (GetCollectionID orphan ∉ CollectionManager_GetAll orphanBehindMissingView)
  ∧ (∃ t, NewSegmentTask orphanBehindMissingView (GetCollectionID orphan)
            (NilReplica orphanBehindMissingView)
            (reduceAction orphan querypb.DataScope_Historical) = Ret t)
  ∧ (getSealedSegmentDiff stable_runtime orphanBehindMissingView 100 1).2
    = [placement 7 1 1]
  ∧ filterSegmentInUse orphanBehindMissingView replica1 [placement 7 1 1] = Panic
  ∧ checkReplica stable_runtime orphanBehindMissingView replica1 = Panic
  ∧ Check stable_runtime orphanBehindMissingView = Panic.
Proof.
  split; [reflexivity|].
  split; [vm_compute; repeat constructor|].
  split; [vm_compute; intros H; apply list_elem_of_singleton in H; discriminate|].
  split; [eexists; reflexivity|].
  repeat split; vm_compute; reflexivity.
Qed.

(** ** The sealed-segment differ *)

(** C2. For an existing replica, [getSealedSegmentDiff] returns as [toLoad]
    the load candidates gathered from both targets when none of them is an
    L0 segment, and exactly the L0 ones among them, in order, as soon as
    there is one. *)
Theorem getSealedSegmentDiff_loads_level0_first
    (rt : GoRuntime) (c : SegmentChecker) (collectionID replicaID : Z)
    (replica : querypb.Replica) :
  meta_Get c replicaID = Some replica →
  let candidates :=
    sealedLoadCandidates rt c replica (buildDistMap (sortedSealedDist rt c replica))
      (GetSealedSegmentsByCollection c collectionID meta.NextTarget)
      (GetSealedSegmentsByCollection c collectionID meta.CurrentTarget) in
  let toLoad := (getSealedSegmentDiff rt c collectionID replicaID).1 in
  ((∃ segment, segment ∈ candidates ∧ isLevel0 segment) →
     toLoad = filter isLevel0 candidates
     ∧ ∀ segment, segment ∈ toLoad ↔ segment ∈ candidates ∧ isLevel0 segment)
  ∧ ((∀ segment, segment ∈ candidates → ¬ isLevel0 segment) → toLoad = candidates).
Proof.
  intros Hget candidates toLoad.
  assert (HtoLoad : toLoad = level0First candidates).
  { unfold toLoad, getSealedSegmentDiff. rewrite Hget. reflexivity. }
  rewrite HtoLoad. unfold level0First. split.
  - intros (segment & Hin & HL0).
    assert (segment ∈ filter isLevel0 candidates) as Hfil
      by (apply list_elem_of_filter; auto).
    rewrite bool_decide_eq_true_2.
    + split; [reflexivity|]. intros s. rewrite list_elem_of_filter. tauto.
    + destruct (filter isLevel0 candidates); [inversion Hfil | simpl; lia].
  - intros Hnone.
    assert (filter isLevel0 candidates = []) as ->.
    { destruct (filter isLevel0 candidates) as [|s l] eqn:Hfil; [reflexivity|].
      assert (s ∈ filter isLevel0 candidates) as Hs by (rewrite Hfil; left).
      apply list_elem_of_filter in Hs as [HL0 Hs]. destruct (Hnone s Hs HL0). }
    reflexivity.
Qed.

Lemma getSealedSegmentDiff_loads_level0_first_witness :
  meta_Get level0Pending 1 = Some replica1
  ∧ sealedInfo 8 datapb.SegmentLevel_Normal
      ∈ sealedLoadCandidates stable_runtime level0Pending replica1
          (buildDistMap (sortedSealedDist stable_runtime level0Pending replica1))
          (GetSealedSegmentsByCollection level0Pending 100 meta.NextTarget)
          (GetSealedSegmentsByCollection level0Pending 100 meta.CurrentTarget)
  ∧ (getSealedSegmentDiff stable_runtime level0Pending 100 1).1
    = [sealedInfo 7 datapb.SegmentLevel_L0].
Proof.
  split; [reflexivity|].
  split; [vm_compute; repeat constructor|].
  destruct (getSealedSegmentDiff_loads_level0_first stable_runtime level0Pending 100 1
              replica1 eq_refl) as [Hsome _].
  destruct Hsome as [-> _].
  - exists (sealedInfo 7 datapb.SegmentLevel_L0). split; [vm_compute; repeat constructor | reflexivity].
  - vm_compute. reflexivity.
Defined.

(** ** What the runtime contract gives *)

Section Runtime.
Variable rt : GoRuntime.
Hypothesis Hrt : GoRuntimeOk rt.

(** [range] visits exactly the entries of the map. *)
Lemma elem_of_range_map `{Countable K} {V} (m : gmap K V) (k : K) (v : V) :
  (k, v) ∈ range_map rt m ↔ m !! k = Some v.
Proof. rewrite (range_map_perm rt Hrt). apply elem_of_map_to_list. Qed.

Lemma elem_of_sort_Slice {A} (less : A → A → bool) (l : list A) (x : A) :
  x ∈ sort_Slice rt less l ↔ x ∈ l.
Proof. rewrite (sort_Slice_perm rt Hrt). reflexivity. Qed.
End Runtime.

Lemma insert_sorted_perm {A} (before : A → A → bool) (x : A) (l : list A) :
  insert_sorted before x l ≡ₚ x :: l.
Proof.
  induction l as [|y l IH]; simpl; [reflexivity|].
  destruct (before x y); [reflexivity|].
  rewrite IH. apply perm_swap.
Qed.

Lemma insertion_sort_perm {A} (before : A → A → bool) (l : list A) :
  insertion_sort before l ≡ₚ l.
Proof.
  induction l as [|x l IH]; simpl; [reflexivity|].
  rewrite insert_sorted_perm. f_equiv. exact IH.
Qed.

Lemma insert_sorted_sorted {A} (key : A → Z) (before : A → A → bool) :
  (∀ x y, before x y = true → key x ≤ key y) →
  (∀ x y, before x y = false → key y ≤ key x) →
  ∀ x l, StronglySorted (λ x y, key x ≤ key y) l →
         StronglySorted (λ x y, key x ≤ key y) (insert_sorted before x l).
Proof.
  intros Htrue Hfalse x l. induction l as [|y l IH]; intros Hsorted; simpl.
  - repeat constructor.
  - apply StronglySorted_inv in Hsorted as [Hl Hy].
    destruct (before x y) eqn:Hb.
    + constructor; [constructor; assumption|].
      constructor; [apply Htrue, Hb|].
      eapply Forall_impl; [exact Hy|]. simpl. intros z Hz.
      specialize (Htrue _ _ Hb). lia.
    + constructor; [apply IH, Hl|].
      rewrite insert_sorted_perm. constructor; [apply Hfalse, Hb | exact Hy].
Qed.

Lemma insertion_sort_sorted {A} (key : A → Z) (before : A → A → bool) (l : list A) :
  (∀ x y, before x y = true → key x ≤ key y) →
  (∀ x y, before x y = false → key y ≤ key x) →
  StronglySorted (λ x y, key x ≤ key y) (insertion_sort before l).
Proof.
  intros Htrue Hfalse. induction l as [|x l IH]; simpl; [constructor|].
  apply insert_sorted_sorted; assumption.
Qed.

(** The sample runtime honours the contract. *)
Lemma stable_runtime_ok : GoRuntimeOk stable_runtime.
Proof.
  split; simpl.
  - reflexivity.
  - intros A less l. apply insertion_sort_perm.
  - intros A key l. apply insertion_sort_sorted; intros x y Hb.
    + apply negb_true_iff, bool_decide_eq_false in Hb. lia.
    + apply negb_false_iff, bool_decide_eq_true in Hb. lia.
Qed.

(** ** The growing-segment differ *)

Section GrowingDiff.
Variable rt : GoRuntime.
Variable c : SegmentChecker.
Variable collectionID : Z.

Lemma elem_of_growingReleaseStep (toRelease : list meta.Segment) (s g : meta.Segment) :
  g ∈ growingReleaseStep c collectionID toRelease s
  ↔ g ∈ toRelease ∨ (g = s ∧ behindWatermark c collectionID s).
Proof.
  unfold growingReleaseStep, behindWatermark.
  destruct (bool_decide (GetID s ∉ GetGrowingSegmentsByCollection c collectionID
                                     meta.CurrentTarget)) eqn:Hcur; simpl.
  2: { apply bool_decide_eq_false in Hcur. split; [auto|].
       intros [Hg | (_ & Hc & _)]; [exact Hg | contradiction]. }
  destruct (bool_decide (GetID s ∉ GetGrowingSegmentsByCollection c collectionID
                                     meta.NextTarget)) eqn:Hnext; simpl.
  2: { apply bool_decide_eq_false in Hnext. split; [auto|].
       intros [Hg | (_ & _ & Hn & _)]; [exact Hg | contradiction]. }
  apply bool_decide_eq_true in Hcur, Hnext.
  destruct (GetDmChannelsByCollection c collectionID meta.CurrentTarget
              !! GetInsertChannel s) as [channel|] eqn:Hch.
  2: { split; [auto|].
       intros [Hg | (_ & _ & _ & channel' & Hsome & _)]; [exact Hg | discriminate]. }
  case_bool_decide as Hlt.
  - rewrite elem_of_app, list_elem_of_singleton. split.
    + intros [Hg | Hg]; [left; exact Hg|].
      right. split; [exact Hg|]. eauto.
    + intros [Hg | [Hg _]]; auto.
  - split; [auto|].
    intros [Hg | (_ & _ & _ & channel' & [= <-] & Hlt')]; [exact Hg | contradiction].
Qed.

Lemma elem_of_growingReleaseStep_foldl (l : list meta.Segment) :
  ∀ (toRelease : list meta.Segment) (g : meta.Segment),
    g ∈ foldl (growingReleaseStep c collectionID) toRelease l
    ↔ g ∈ toRelease ∨ (g ∈ l ∧ behindWatermark c collectionID g).
Proof.
  induction l as [|s l IH]; intros toRelease g; simpl.
  - split; [auto | intros [H | [H _]]; [exact H | inversion H]].
  - rewrite IH, elem_of_growingReleaseStep, elem_of_cons.
    split.
    + intros [[H | [-> Hb]] | [Hin Hb]]; auto.
    + intros [H | [[-> | Hin] Hb]]; auto.
Qed.

(** One leader contributes the growing segments of its view that are
    behind the watermark, provided the view is registered and caught up. *)
Lemma elem_of_growingLeaderStep (toRelease : list meta.Segment)
    (channelName : string) (node : Z) (g : meta.Segment) :
  g ∈ growingLeaderStep rt c collectionID toRelease (channelName, node)
  ↔ g ∈ toRelease
    ∨ ∃ view,
        GetLeaderShardView c node channelName = Some view
        ∧ meta.TargetVersion view
          = GetCollectionTargetVersion c collectionID meta.CurrentTarget
        ∧ g ∈ (range_map rt (meta.GrowingSegments view)).*2
        ∧ behindWatermark c collectionID g.
Proof.
  unfold growingLeaderStep.
  destruct (GetLeaderShardView c node channelName) as [view|].
  - case_bool_decide as Hver.
    + split; [auto|]. intros [H | (view' & [= <-] & Hv & _)]; [exact H | contradiction].
    + rewrite elem_of_growingReleaseStep_foldl.
      split.
      * intros [H | [Hin Hb]]; [left; exact H|].
        right. exists view. split; [reflexivity|].
        split; [exact Hver | split; assumption].
      * intros [H | (view' & [= <-] & _ & Hin & Hb)]; auto.
  - split; [auto|]. intros [H | (view' & [=] & _)]. exact H.
Qed.

Lemma elem_of_growingLeaderStep_foldl (leaders : list (string * Z)) :
  ∀ (toRelease : list meta.Segment) (g : meta.Segment),
    g ∈ foldl (growingLeaderStep rt c collectionID) toRelease leaders
    ↔ g ∈ toRelease
      ∨ ∃ channelName node view,
          (channelName, node) ∈ leaders
          ∧ GetLeaderShardView c node channelName = Some view
          ∧ meta.TargetVersion view
            = GetCollectionTargetVersion c collectionID meta.CurrentTarget
          ∧ g ∈ (range_map rt (meta.GrowingSegments view)).*2
          ∧ behindWatermark c collectionID g.
Proof.
  induction leaders as [|[channelName node] leaders IH]; intros toRelease g; cbn [foldl].
  - split; [auto|]. intros [H | (? & ? & ? & H & _)]; [exact H | inversion H].
  - rewrite IH, elem_of_growingLeaderStep. split.
    + intros [[H | (view & Hv & Hver & Hin & Hb)] | (ch & n & view & Hl & Hrest)].
      * left. exact H.
      * right. exists channelName, node, view. split; [left | auto].
      * right. exists ch, n, view. split; [right; exact Hl | exact Hrest].
    + intros [H | (ch & n & view & Hl & Hrest)]; [auto|].
      apply elem_of_cons in Hl as [[= -> ->] | Hl].
      * left. right. exists view. exact Hrest.
      * right. exists ch, n, view. auto.
Qed.
End GrowingDiff.

(** C3. For an existing replica, the growing segments that
    [getGrowingSegmentDiff] marks releasable are exactly those held as a
    growing segment by a leader view that is registered for a channel the
    replica leads and has adopted the collection's current target version,
    whose id is in neither target's growing-segment set, whose channel is in
    the current target's channel map, and whose start timestamp is strictly
    below that channel's seek timestamp.  In particular a growing segment
    that does not start before the seek position of its channel (start 200
    against seek position 100, say) is never marked. *)
Theorem getGrowingSegmentDiff_releases_behind_watermark
    (rt : GoRuntime) (c : SegmentChecker) (collectionID replicaID : Z)
    (replica : querypb.Replica) :
  GoRuntimeOk rt →
  meta_Get c replicaID = Some replica →
  let toRelease := (getGrowingSegmentDiff rt c collectionID replicaID).2 in
  (∀ g, g ∈ toRelease
        ↔ onCaughtUpLeader c collectionID replica g ∧ behindWatermark c collectionID g)
  ∧ (∀ g channel,
       GetDmChannelsByCollection c collectionID meta.CurrentTarget !! GetInsertChannel g
         = Some channel →
       datapb.GetTimestamp (GetSeekPosition channel)
         ≤ datapb.GetTimestamp (GetStartPosition g) →
       g ∉ toRelease).
Proof.
  intros Hrt Hget toRelease.
  assert (Hiff : ∀ g, g ∈ toRelease
            ↔ onCaughtUpLeader c collectionID replica g ∧ behindWatermark c collectionID g).
  { intros g. unfold toRelease, getGrowingSegmentDiff. rewrite Hget. simpl.
    rewrite elem_of_growingLeaderStep_foldl. unfold onCaughtUpLeader. split.
    - intros [H | (channelName & node & view & Hl & Hv & Hver & Hin & Hb)]; [inversion H|].
      split; [|exact Hb].
      apply list_elem_of_fmap in Hin as ([key g'] & -> & Hin).
      exists channelName, node, view, key.
      repeat split; try assumption.
      + apply (elem_of_range_map rt Hrt). exact Hl.
      + apply (elem_of_range_map rt Hrt). exact Hin.
    - intros [(channelName & node & view & key & Hl & Hv & Hver & Hin) Hb].
      right. exists channelName, node, view.
      repeat split; try assumption; try apply Hb.
      + apply (elem_of_range_map rt Hrt). exact Hl.
      + apply list_elem_of_fmap. exists (key, g). split; [reflexivity|].
        apply (elem_of_range_map rt Hrt). exact Hin. }
  split; [exact Hiff|].
  intros g channel Hch Hle Hin.
  apply Hiff in Hin as [_ (_ & _ & channel' & Hch' & Hlt)].
  rewrite Hch in Hch'. injection Hch' as <-. lia.
Qed.

Lemma getGrowingSegmentDiff_releases_behind_watermark_witness :
  GoRuntimeOk stable_runtime
  ∧ meta_Get growingBehind 1 = Some replica1
  ∧ growing 21 50 ∈ (getGrowingSegmentDiff stable_runtime growingBehind 100 1).2
  ∧ growing 22 200 ∉ (getGrowingSegmentDiff stable_runtime growingBehind 100 1).2.
Proof.
  split; [exact stable_runtime_ok|]. split; [reflexivity|].
  destruct (getGrowingSegmentDiff_releases_behind_watermark stable_runtime growingBehind
              100 1 replica1 stable_runtime_ok eq_refl) as [Hiff Hnever].
  split.
  - apply Hiff. split.
    + exists "dml_0", 1,
        {| meta.ID := 1; meta.TargetVersion := 3;
           meta.GrowingSegments := {[21 := growing 21 50; 22 := growing 22 200]};
           meta.Segments := ∅ |}, 21.
      repeat split; vm_compute; reflexivity.
    + split; [vm_compute; discriminate|].
      split; [vm_compute; discriminate|].
      exists {| meta.VchannelInfo :=
                  {| datapb.SeekPosition := Some {| datapb.Timestamp := 100 |} |} |}.
      split; vm_compute; reflexivity.
  - apply (Hnever (growing 22 200)
             {| meta.VchannelInfo :=
                  {| datapb.SeekPosition := Some {| datapb.Timestamp := 100 |} |} |}).
    + vm_compute. reflexivity.
    + vm_compute. discriminate.
Defined.

(** ** The segment-to-node map of the sealed-segment differ *)

Lemma buildDistMap_snoc (dist : list meta.Segment) (s : meta.Segment) :
  buildDistMap (dist ++ [s]) = <[GetID s := meta.Node s]> (buildDistMap dist).
Proof. unfold buildDistMap. rewrite foldl_app. reflexivity. Qed.

Lemma buildDistMap_lookup_None (dist : list meta.Segment) (id : Z) :
  buildDistMap dist !! id = None ↔ ∀ s, s ∈ dist → GetID s ≠ id.
Proof.
  induction dist as [|s dist IH] using rev_ind.
  - split; [intros _ s Hs; inversion Hs | intros _; apply lookup_empty].
  - rewrite buildDistMap_snoc, lookup_insert_None, IH. split.
    + intros [Hdist Hs] t Ht. apply elem_of_app in Ht as [Ht | Ht]; [auto|].
      apply list_elem_of_singleton in Ht. subst t. exact Hs.
    + intros Hall. split.
      * intros t Ht. apply Hall, elem_of_app. left. exact Ht.
      * apply Hall, elem_of_app. right. apply list_elem_of_singleton. reflexivity.
Qed.

(** The last write wins: the map holds the node of the last entry of each
    segment. *)
Lemma buildDistMap_last (pre post : list meta.Segment) (s : meta.Segment) :
  (∀ t, t ∈ post → GetID t ≠ GetID s) →
  buildDistMap (pre ++ s :: post) !! GetID s = Some (meta.Node s).
Proof.
  induction post as [|t post IH] using rev_ind; intros Hpost.
  - rewrite buildDistMap_snoc. apply lookup_insert_eq.
  - replace (pre ++ s :: post ++ [t]) with ((pre ++ s :: post) ++ [t])
      by (rewrite <- app_assoc; reflexivity).
    rewrite buildDistMap_snoc, lookup_insert_ne.
    + apply IH. intros u Hu. apply Hpost, elem_of_app. left. exact Hu.
    + apply Hpost, elem_of_app. right. apply list_elem_of_singleton. reflexivity.
Qed.

Lemma buildDistMap_lookup_Some (dist : list meta.Segment) (id node : Z) :
  buildDistMap dist !! id = Some node →
  ∃ pre s post,
    dist = pre ++ s :: post ∧ GetID s = id ∧ meta.Node s = node
    ∧ ∀ t, t ∈ post → GetID t ≠ id.
Proof.
  induction dist as [|s dist IH] using rev_ind; intros Hlook.
  - unfold buildDistMap in Hlook. simpl in Hlook.
    rewrite lookup_empty in Hlook. discriminate.
  - rewrite buildDistMap_snoc in Hlook.
    destruct (decide (GetID s = id)) as [Heq|Hne].
    + rewrite <- Heq, lookup_insert_eq in Hlook. injection Hlook as <-.
      exists dist, s, []. repeat split; [exact Heq|]. intros t Ht. inversion Ht.
    + rewrite lookup_insert_ne in Hlook by exact Hne.
      destruct (IH Hlook) as (pre & s' & post & -> & Hid & Hnode & Hpost).
      exists pre, s', (post ++ [s]). rewrite <- app_assoc.
      repeat split; try assumption.
      intros t Ht. apply elem_of_app in Ht as [Ht | Ht]; [auto|].
      apply list_elem_of_singleton in Ht. subst t. exact Hne.
Qed.

(** After [sort.Slice] has ordered the replica's sealed distribution by
    ascending version and the loop has written it into the map, a segment id
    is absent from the map exactly when the distribution has no placement of
    it; an id in the map is mapped to the node of one of its placements of
    highest version; and that placement is the last entry of the id in the
    order [sort.Slice] left.  This holds for every order [sort.Slice] may
    leave placements of equal version in. *)
Theorem getSealedSegmentDiff_distMap_highest_version
    (rt : GoRuntime) (c : SegmentChecker) (replica : querypb.Replica) :
  GoRuntimeOk rt →
  let dist := getSealedSegmentsDist c replica in
  let sorted := sortedSealedDist rt c replica in
  let distMap := buildDistMap sorted in
  (∀ id, distMap !! id = None ↔ ∀ s, s ∈ dist → GetID s ≠ id)
  ∧ (∀ id node, distMap !! id = Some node →
       ∃ s, s ∈ dist ∧ GetID s = id ∧ meta.Node s = node
            ∧ ∀ t, t ∈ dist → GetID t = id → meta.Version t ≤ meta.Version s)
  ∧ (∀ pre s post,
       sorted = pre ++ s :: post → (∀ t, t ∈ post → GetID t ≠ GetID s) →
       distMap !! GetID s = Some (meta.Node s)).
Proof.
  intros Hrt dist sorted distMap.
  assert (Hmem : ∀ s, s ∈ sorted ↔ s ∈ dist).
  { intros s. apply (elem_of_sort_Slice rt Hrt). }
  split; [|split].
  - intros id. unfold distMap. rewrite buildDistMap_lookup_None.
    split; intros H s Hs; apply H, Hmem, Hs.
  - intros id node Hlook.
    destruct (buildDistMap_lookup_Some _ _ _ Hlook) as (pre & s & post & Hsplit & Hid & Hnode & Hpost).
    exists s. split; [apply Hmem; rewrite Hsplit; apply elem_of_app; right; left|].
    split; [exact Hid|]. split; [exact Hnode|].
    intros t Ht Htid. apply Hmem in Ht. rewrite Hsplit in Ht.
    pose proof (sort_Slice_sorted rt Hrt _ meta.Version (getSealedSegmentsDist c replica))
      as Hsorted.
    fold (sortedSealedDist rt c replica) in Hsorted. fold sorted in Hsorted.
    rewrite Hsplit in Hsorted.
    apply elem_of_app in Ht as [Ht | Ht].
    + apply (StronglySorted_app_1_elem_of _ _ _ t s Hsorted Ht). left.
    + apply elem_of_cons in Ht as [-> | Ht]; [lia|].
      destruct (Hpost t Ht Htid).
  - intros pre s post Hsplit Hpost. unfold distMap. rewrite Hsplit.
    apply buildDistMap_last, Hpost.
Qed.

Lemma getSealedSegmentDiff_distMap_highest_version_witness :
  GoRuntimeOk stable_runtime
  ∧ buildDistMap (sortedSealedDist stable_runtime threeVersions replica1) !! 7 = Some 1.
Proof.
  split; [exact stable_runtime_ok|].
  destruct (getSealedSegmentDiff_distMap_highest_version stable_runtime threeVersions
              replica1 stable_runtime_ok) as (_ & _ & Hlast).
  apply (Hlast [placement 7 2 1; placement 7 3 2] (placement 7 1 3) []).
  - vm_compute. reflexivity.
  - intros t Ht. inversion Ht.
Defined.

(** ** Loops, in general *)

(** A loop whose body faults on an element whatever the state faults
    exactly when it meets such an element. *)
Lemma forEach_panic_iff {A S} (body : S → A → result S) (faults : A → Prop) (l : list A) :
  (∀ st x, x ∈ l → body st x = Panic ↔ faults x) →
  ∀ st, forEach body st l = Panic ↔ ∃ x, x ∈ l ∧ faults x.
Proof.
  induction l as [|x l IH]; intros Hbody st; simpl.
  - split; [discriminate | intros (x & Hx & _); inversion Hx].
  - assert (Htail : ∀ st x, x ∈ l → body st x = Panic ↔ faults x)
      by (intros st' y Hy; apply Hbody; right; exact Hy).
    destruct (body st x) as [st'|] eqn:Hx; simpl.
    + rewrite (IH Htail). split.
      * intros (y & Hy & Hf). exists y. split; [right; exact Hy | exact Hf].
      * intros (y & Hy & Hf). apply elem_of_cons in Hy as [-> | Hy].
        -- apply (Hbody st) in Hf; [congruence | left].
        -- exists y. auto.
    + split; [|reflexivity]. intros _. exists x. split; [left|].
      apply (Hbody st); [left | exact Hx].
Qed.

(** A loop that appends what [f] returns for every element collects the
    results in order. *)
Lemma forEach_collect {A B} (f : A → result (list B)) (g : A → list B) (l : list A) :
  (∀ x, x ∈ l → f x = Ok (g x)) →
  ∀ acc, forEach (λ acc x, tasks ← f x; Ok (acc ++ tasks)) acc l = Ok (acc ++ l ≫= g).
Proof.
  induction l as [|x l IH]; intros Hf acc; simpl.
  - rewrite app_nil_r. reflexivity.
  - rewrite (Hf x) by left. simpl.
    rewrite IH by (intros y Hy; apply Hf; right; exact Hy).
    rewrite <- app_assoc. reflexivity.
Qed.

(** A loop that keeps or drops each element returns a sublist. *)
Lemma forEach_sublist {A} (body : list A → A → result (list A)) (l : list A) :
  (∀ acc x, body acc x = Panic ∨ body acc x = Ok acc ∨ body acc x = Ok (acc ++ [x])) →
  ∀ acc out, forEach body acc l = Ok out → ∃ kept, out = acc ++ kept ∧ kept `sublist_of` l.
Proof.
  intros Hbody. induction l as [|x l IH]; intros acc out Hout; simpl in Hout.
  - injection Hout as <-. exists []. rewrite app_nil_r. split; [reflexivity | constructor].
  - destruct (Hbody acc x) as [Hx | [Hx | Hx]]; rewrite Hx in Hout; simpl in Hout.
    + discriminate.
    + destruct (IH _ _ Hout) as (kept & -> & Hsub).
      exists kept. split; [reflexivity | apply sublist_cons, Hsub].
    + destruct (IH _ _ Hout) as (kept & -> & Hsub).
      exists (x :: kept). rewrite <- app_assoc. split; [reflexivity|].
      apply sublist_skip, Hsub.
Qed.

Lemma foldl_filter {A} (P : A → Prop) `{∀ x, Decision (P x)}
    (step : list A → A → list A) (l : list A) :
  (∀ acc x, step acc x = if decide (P x) then acc ++ [x] else acc) →
  ∀ acc, foldl step acc l = acc ++ filter P l.
Proof.
  intros Hstep. induction l as [|x l IH]; intros acc; simpl.
  - rewrite filter_nil, app_nil_r. reflexivity.
  - rewrite IH, Hstep, filter_cons. destruct (decide (P x)).
    + rewrite <- app_assoc. reflexivity.
    + reflexivity.
Qed.

(** ** When the staleness filters fault *)

Section FilterFaults.
Variable c : SegmentChecker.
Variable replica : querypb.Replica.

Lemma filterSegmentInUse_body_cases (filtered : list meta.Segment) (s : meta.Segment) :
  let body := λ filtered s,
    match GetShardLeader c replica (GetInsertChannel s) with
    | None => Ok filtered
    | Some leaderID =>
        view ← deref (GetLeaderShardView c leaderID (GetInsertChannel s));
        if bool_decide (is_Some (CollectionManager_GetPartition c
                                   (datapb.PartitionID (meta.SegmentInfo s))))
           && (bool_decide (meta.TargetVersion view ≠ initialTargetVersion)
               && bool_decide (meta.TargetVersion view
                               < GetCollectionTargetVersion c (GetCollectionID s)
                                   meta.CurrentTarget))
        then Ok filtered
        else Ok (filtered ++ [s])
    end in
  (body filtered s = Panic ↔ leaderViewMissing c replica s)
  ∧ (body filtered s = Panic ∨ body filtered s = Ok filtered
     ∨ body filtered s = Ok (filtered ++ [s])).
Proof.
  simpl. unfold leaderViewMissing.
  destruct (GetShardLeader c replica (GetInsertChannel s)) as [leaderID|].
  - destruct (GetLeaderShardView c leaderID (GetInsertChannel s)) as [view|] eqn:Hv; simpl.
    + split.
      * split; [destruct (bool_decide (is_Some _) && _); discriminate|].
        intros (? & [= <-] & ?). congruence.
      * destruct (bool_decide (is_Some _) && _); auto.
    + split; [|auto]. split; [eauto | reflexivity].
  - split; [|auto]. split; [discriminate | intros (? & ? & _); discriminate].
Qed.

Lemma filterExistedOnLeader_body_cases (filtered : list meta.Segment) (s : meta.Segment) :
  let body := λ filtered s,
    match GetShardLeader c replica (GetInsertChannel s) with
    | None => Ok filtered
    | Some leaderID =>
        view ← deref (GetLeaderShardView c leaderID (GetInsertChannel s));
        match meta.Segments view !! GetID s with
        | Some seg =>
            if bool_decide (querypb.NodeID seg = meta.Node s)
            then Ok filtered
            else Ok (filtered ++ [s])
        | None => Ok (filtered ++ [s])
        end
    end in
  (body filtered s = Panic ↔ leaderViewMissing c replica s)
  ∧ (body filtered s = Panic ∨ body filtered s = Ok filtered
     ∨ body filtered s = Ok (filtered ++ [s])).
Proof.
  simpl. unfold leaderViewMissing.
  destruct (GetShardLeader c replica (GetInsertChannel s)) as [leaderID|].
  - destruct (GetLeaderShardView c leaderID (GetInsertChannel s)) as [view|] eqn:Hv; simpl.
    + split.
      * split; [destruct (_ !! _) as [seg|]; [case_bool_decide|]; discriminate|].
        intros (? & [= <-] & ?). congruence.
      * destruct (_ !! _) as [seg|]; [case_bool_decide|]; auto.
    + split; [|auto]. split; [eauto | reflexivity].
  - split; [|auto]. split; [discriminate | intros (? & ? & _); discriminate].
Qed.

Lemma filterSegmentInUse_panic_iff (segments : list meta.Segment) :
  filterSegmentInUse c replica segments = Panic
  ↔ ∃ s, s ∈ segments ∧ leaderViewMissing c replica s.
Proof.
  unfold filterSegmentInUse. apply forEach_panic_iff.
  intros filtered s _. apply (filterSegmentInUse_body_cases filtered s).
Qed.

Lemma filterExistedOnLeader_panic_iff (segments : list meta.Segment) :
  filterExistedOnLeader c replica segments = Panic
  ↔ ∃ s, s ∈ segments ∧ leaderViewMissing c replica s.
Proof.
  unfold filterExistedOnLeader. apply forEach_panic_iff.
  intros filtered s _. apply (filterExistedOnLeader_body_cases filtered s).
Qed.

End FilterFaults.

(** The staleness filters fault exactly when one of their candidates has a
    shard leader that resolves without a registered view; this holds for
    every candidate list, not only for the one of claim C5. *)
Theorem staleness_filters_fault_iff
    (c : SegmentChecker) (replica : querypb.Replica) (segments : list meta.Segment) :
  (filterSegmentInUse c replica segments = Panic
   ↔ ∃ s, s ∈ segments ∧ leaderViewMissing c replica s)
  ∧ (filterExistedOnLeader c replica segments = Panic
     ↔ ∃ s, s ∈ segments ∧ leaderViewMissing c replica s)
  ∧ (filterSegmentInUse c replica segments = Panic
     ↔ filterExistedOnLeader c replica segments = Panic).
Proof.
  pose proof (filterSegmentInUse_panic_iff c replica segments) as HinUse.
  pose proof (filterExistedOnLeader_panic_iff c replica segments) as Hexisted.
  split; [exact HinUse|]. split; [exact Hexisted|].
  rewrite HinUse, Hexisted. reflexivity.
Qed.

(** What the staleness filters return is a sublist of what they are given:
    they drop candidates, and never add, repeat or reorder any. *)
Theorem staleness_filters_only_drop
    (c : SegmentChecker) (replica : querypb.Replica) (segments out : list meta.Segment) :
  filterSegmentInUse c replica segments = Ok out
  ∨ filterExistedOnLeader c replica segments = Ok out →
  out `sublist_of` segments.
Proof.
  intros [Hout | Hout].
  - unfold filterSegmentInUse in Hout.
    apply forEach_sublist in Hout as (kept & -> & Hsub); [exact Hsub|].
    intros filtered s. apply (filterSegmentInUse_body_cases c replica filtered s).
  - unfold filterExistedOnLeader in Hout.
    apply forEach_sublist in Hout as (kept & -> & Hsub); [exact Hsub|].
    intros filtered s. apply (filterExistedOnLeader_body_cases c replica filtered s).
Qed.

Lemma staleness_filters_only_drop_witness :
  filterExistedOnLeader servingLeader replica1
    [placement 7 1 1; placement 7 2 2; placement 8 1 1; placement 9 3 1]
  = Ok [placement 7 1 1; placement 9 3 1]
  ∧ [placement 7 1 1; placement 9 3 1]
    `sublist_of` [placement 7 1 1; placement 7 2 2; placement 8 1 1; placement 9 3 1].
Proof.
  assert (filterExistedOnLeader servingLeader replica1
            [placement 7 1 1; placement 7 2 2; placement 8 1 1; placement 9 3 1]
          = Ok [placement 7 1 1; placement 9 3 1]) as Hout
    by (vm_compute; reflexivity).
  split; [exact Hout|].
  apply (staleness_filters_only_drop servingLeader replica1 _ _ (or_intror Hout)).
Defined.

(** ** checkReplica and Check *)

Section CheckComposition.
Variable rt : GoRuntime.
Variable c : SegmentChecker.

Lemma checkReplica_panic_iff (replica : querypb.Replica) :
  checkReplica rt c replica = Panic
  ↔ filterSegmentInUse c replica
      (getSealedSegmentDiff rt c (querypb.CollectionID replica) (querypb.ID replica)).2
    = Panic
    ∨ filterExistedOnLeader c replica (findRepeatedSealedSegments c (querypb.ID replica))
      = Panic.
Proof.
  unfold checkReplica.
  destruct (getSealedSegmentDiff rt c _ _) as [lacks redundancies]. simpl.
  destruct (filterSegmentInUse c replica redundancies); simpl; [|tauto].
  destruct (filterExistedOnLeader c replica _); simpl; [|tauto].
  destruct (getGrowingSegmentDiff rt c _ _).
  split; [discriminate | intros [?|?]; discriminate].
Qed.

Lemma checkCollections_panic_iff (collectionIDs : list Z) :
  checkCollections rt c collectionIDs = Panic
  ↔ ∃ cid, cid ∈ collectionIDs
           ∧ readyToCheck c cid = true
           ∧ ∃ replica, replica ∈ ReplicaManager_GetByCollection c cid
                        ∧ checkReplica rt c replica = Panic.
Proof.
  unfold checkCollections.
  apply (forEach_panic_iff _
           (λ cid, readyToCheck c cid = true
                   ∧ ∃ replica, replica ∈ ReplicaManager_GetByCollection c cid
                                ∧ checkReplica rt c replica = Panic)).
  intros results cid _.
  destruct (readyToCheck c cid).
  - rewrite (forEach_panic_iff _ (λ replica, checkReplica rt c replica = Panic)).
    + split; [intros H; split; [reflexivity | exact H] | intros [_ H]; exact H].
    + intros results' replica _. destruct (checkReplica rt c replica); simpl.
      * split; discriminate.
      * split; reflexivity.
  - split; [discriminate | intros [? _]; discriminate].
Qed.

Lemma checkReplicas_collect (replicas : list querypb.Replica) :
  ∀ results out,
    forEach (λ results r, tasks ← checkReplica rt c r; Ok (results ++ tasks))
      results replicas = Ok out →
    out = results ++ replicas ≫= tasksOfReplica rt c.
Proof.
  induction replicas as [|r replicas IH]; intros results out Hout; simpl in Hout.
  - injection Hout as <-. rewrite app_nil_r. reflexivity.
  - assert (Htasks : ∀ tasks, checkReplica rt c r = Ok tasks → tasksOfReplica rt c r = tasks)
      by (intros tasks H; unfold tasksOfReplica; rewrite H; reflexivity).
    destruct (checkReplica rt c r) as [tasks|]; simpl in Hout; [|discriminate].
    apply IH in Hout. rewrite Hout, <- app_assoc.
    rewrite bind_cons, (Htasks tasks eq_refl). reflexivity.
Qed.

Lemma checkCollections_collect (collectionIDs : list Z) :
  ∀ results out,
    forEach (λ results cid,
               if readyToCheck c cid then
                 forEach (λ results r, tasks ← checkReplica rt c r; Ok (results ++ tasks))
                         results (ReplicaManager_GetByCollection c cid)
               else Ok results)
      results collectionIDs = Ok out →
    out = results
          ++ filter (λ cid, readyToCheck c cid = true) collectionIDs
             ≫= (λ cid, ReplicaManager_GetByCollection c cid ≫= tasksOfReplica rt c).
Proof.
  induction collectionIDs as [|cid ids IH]; intros results out Hout; simpl in Hout.
  - injection Hout as <-. rewrite app_nil_r. reflexivity.
  - rewrite filter_cons.
    destruct (readyToCheck c cid) eqn:Hready.
    + destruct (forEach _ results (ReplicaManager_GetByCollection c cid))
        as [results'|] eqn:Hinner; simpl in Hout; [|discriminate].
      apply checkReplicas_collect in Hinner. apply IH in Hout.
      rewrite decide_True by reflexivity.
      rewrite bind_cons, Hout, Hinner, <- app_assoc. reflexivity.
    + simpl in Hout. apply IH in Hout.
      rewrite decide_False by discriminate. exact Hout.
Qed.

End CheckComposition.

(** A replica that the meta store no longer knows under its id yields no
    task and no fault: both differs and the duplicate resolver return
    nothing for it, and every later step of [checkReplica] then has nothing
    to work on. *)
Theorem checkReplica_unknown_replica
    (rt : GoRuntime) (c : SegmentChecker) (replica : querypb.Replica) :
  meta_Get c (querypb.ID replica) = None →
  getSealedSegmentDiff rt c (querypb.CollectionID replica) (querypb.ID replica) = ([], [])
  ∧ findRepeatedSealedSegments c (querypb.ID replica) = []
  ∧ getGrowingSegmentDiff rt c (querypb.CollectionID replica) (querypb.ID replica) = ([], [])
  ∧ checkReplica rt c replica = Ok [].
Proof.
  intros Hget.
  unfold checkReplica, getSealedSegmentDiff, findRepeatedSealedSegments,
    getGrowingSegmentDiff.
  rewrite Hget. repeat split; reflexivity.
Qed.

Lemma checkReplica_unknown_replica_witness :
  meta_Get threeVersions 9 = None
  ∧ checkReplica stable_runtime threeVersions
      {| querypb.ID := 9; querypb.CollectionID := 100; querypb.Nodes := [1; 2; 3] |}
    = Ok [].
Proof.
  split; [reflexivity|].
  apply (checkReplica_unknown_replica stable_runtime threeVersions
           {| querypb.ID := 9; querypb.CollectionID := 100; querypb.Nodes := [1; 2; 3] |}
           eq_refl).
Defined.

(** [Check] faults exactly when the checker is active and some replica of a
    collection that is ready to be checked has a sealed release candidate,
    or a redundant placement, whose channel has a shard leader without a
    registered view. *)
Theorem Check_faults_iff (rt : GoRuntime) (c : SegmentChecker) :
  Check rt c = Panic
  ↔ IsActive c = true
    ∧ ∃ cid replica s,
        cid ∈ CollectionManager_GetAll c
        ∧ readyToCheck c cid = true
        ∧ replica ∈ ReplicaManager_GetByCollection c cid
        ∧ (s ∈ (getSealedSegmentDiff rt c (querypb.CollectionID replica)
                  (querypb.ID replica)).2
           ∨ s ∈ findRepeatedSealedSegments c (querypb.ID replica))
        ∧ leaderViewMissing c replica s.
Proof.
  unfold Check. destruct (IsActive c); simpl.
  2: { split; [discriminate | intros [? _]; discriminate]. }
  assert (Hbind : ∀ r : result (list task.Task),
            r ≫= (λ results, Ok (task.SetPriority task.TaskPriorityNormal
                    (results ++ releasedCollectionTasks c (CollectionManager_GetAll c))))
            = Panic ↔ r = Panic).
  { intros [results|]; simpl; split; solve [discriminate | reflexivity]. }
  rewrite Hbind, checkCollections_panic_iff. split.
  - intros (cid & Hcid & Hready & replica & Hreplica & Hpanic). split; [reflexivity|].
    apply checkReplica_panic_iff in Hpanic as [Hpanic | Hpanic].
    + apply filterSegmentInUse_panic_iff in Hpanic as (s & Hs & Hmissing).
      exists cid, replica, s. tauto.
    + apply filterExistedOnLeader_panic_iff in Hpanic as (s & Hs & Hmissing).
      exists cid, replica, s. tauto.
  - intros (_ & cid & replica & s & Hcid & Hready & Hreplica & Hs & Hmissing).
    exists cid. split; [exact Hcid|]. split; [exact Hready|].
    exists replica. split; [exact Hreplica|].
    apply checkReplica_panic_iff. destruct Hs as [Hs | Hs].
    + left. apply filterSegmentInUse_panic_iff. eauto.
    + right. apply filterExistedOnLeader_panic_iff. eauto.
Qed.

(** When every shard leader that resolves has registered its view, [Check]
    returns a task list, whatever else the collaborators report. *)
Theorem Check_returns_when_views_registered (rt : GoRuntime) (c : SegmentChecker) :
  (∀ replica channel leaderID,
     GetShardLeader c replica channel = Some leaderID →
     is_Some (GetLeaderShardView c leaderID channel)) →
  ∃ tasks, Check rt c = Ok tasks.
Proof.
  intros Hviews.
  destruct (Check rt c) as [tasks|] eqn:Hcheck; [eauto|].
  unfold Check in Hcheck. destruct (IsActive c); simpl in Hcheck; [|discriminate].
  destruct (checkCollections rt c (CollectionManager_GetAll c)) as [results|] eqn:Hcoll;
    [discriminate|].
  apply checkCollections_panic_iff in Hcoll as (cid & _ & _ & replica & _ & Hpanic).
  assert (Hnone : ∀ s, ¬ leaderViewMissing c replica s).
  { intros s (leaderID & Hleader & Hview).
    destruct (Hviews _ _ _ Hleader) as [view Hsome]. congruence. }
  apply checkReplica_panic_iff in Hpanic as [Hpanic | Hpanic].
  - apply filterSegmentInUse_panic_iff in Hpanic as (s & _ & Hmissing).
    destruct (Hnone s Hmissing).
  - apply filterExistedOnLeader_panic_iff in Hpanic as (s & _ & Hmissing).
    destruct (Hnone s Hmissing).
Qed.

Lemma Check_returns_when_views_registered_witness :
  (∀ replica channel leaderID,
     GetShardLeader strayAndPending replica channel = Some leaderID →
     is_Some (GetLeaderShardView strayAndPending leaderID channel))
  ∧ ∃ tasks, Check stable_runtime strayAndPending = Ok tasks.
Proof.
  assert (∀ replica channel leaderID,
            GetShardLeader strayAndPending replica channel = Some leaderID →
            is_Some (GetLeaderShardView strayAndPending leaderID channel)) as Hviews
    by (intros replica channel leaderID _; simpl; eauto).
  split; [exact Hviews|].
  apply (Check_returns_when_views_registered stable_runtime strayAndPending Hviews).
Defined.

(** What an active checker returns, when it returns: the tasks of every
    replica of every collection that is ready to be checked, collection by
    collection and replica by replica, followed by the tasks that release
    the segments of collections that are gone, all at Normal priority.  A
    collection that is not ready contributes nothing. *)
Theorem Check_collects_replica_tasks
    (rt : GoRuntime) (c : SegmentChecker) (tasks : list task.Task) :
  IsActive c = true →
  Check rt c = Ok tasks →
  tasks
  = task.SetPriority task.TaskPriorityNormal
      ((filter (λ cid, readyToCheck c cid = true) (CollectionManager_GetAll c)
          ≫= (λ cid, ReplicaManager_GetByCollection c cid ≫= tasksOfReplica rt c))
       ++ releasedCollectionTasks c (CollectionManager_GetAll c)).
Proof.
  intros Hactive Hcheck. unfold Check in Hcheck. rewrite Hactive in Hcheck.
  simpl in Hcheck.
  destruct (checkCollections rt c (CollectionManager_GetAll c)) as [results|] eqn:Hcoll;
    simpl in Hcheck; [|discriminate].
  injection Hcheck as <-.
  unfold checkCollections in Hcoll. apply checkCollections_collect in Hcoll.
  rewrite Hcoll. reflexivity.
Qed.

Lemma Check_collects_replica_tasks_witness :
  IsActive liveAndReleased = true
  ∧ filter (λ cid, readyToCheck liveAndReleased cid = true)
      (CollectionManager_GetAll liveAndReleased) = [100]
  ∧ ReplicaManager_GetByCollection liveAndReleased 100 = [replica1]
  ∧ Check stable_runtime liveAndReleased
    = Ok [ {| task.CollectionID := 100;
              task.Replica := replica1;
              task.Actions := [task.NewSegmentActionWithScope 3 task.ActionTypeGrow "dml_0" 7
                                 querypb.DataScope_Historical];
              task.Reason := "lacks of segment";
              task.Priority_ := task.TaskPriorityNormal |};
           {| task.CollectionID := 100;
              task.Replica := replica1;
              task.Actions := [reduceAction (placement 5 1 1) querypb.DataScope_Historical];
              task.Reason := "segment not exists in target";
              task.Priority_ := task.TaskPriorityNormal |};
           {| task.CollectionID := 200;
              task.Replica := NilReplica liveAndReleased;
              task.Actions := [reduceAction orphan querypb.DataScope_Historical];
              task.Reason := "collection released";
              task.Priority_ := task.TaskPriorityNormal |} ].
Proof.
  split; [reflexivity|].
  split; [vm_compute; reflexivity|].
  split; [vm_compute; reflexivity|].
  destruct (Check stable_runtime liveAndReleased) as [tasks|] eqn:Hcheck;
    [|vm_compute in Hcheck; discriminate].
  rewrite (Check_collects_replica_tasks stable_runtime liveAndReleased tasks eq_refl Hcheck).
  vm_compute. reflexivity.
Defined.

(** ** The sealed-segment differ: what is loaded and what is released *)

Lemma lacksSegment_spec (c : SegmentChecker) (replica : querypb.Replica)
    (distMap : gmap Z Z) (segmentID : Z) (segment : datapb.SegmentInfo) :
  lacksSegment c replica distMap segmentID segment = true
  ↔ missingOrMisplaced c replica distMap segmentID segment.
Proof.
  unfold lacksSegment, missingOrMisplaced.
  destruct (distMap !! segmentID) as [node|].
  - case_bool_decide as HL0.
    + destruct (GetLatestLeadersByReplicaShard c replica (datapb.InsertChannel segment))
        as [leader|].
      * rewrite bool_decide_eq_true. split.
        -- intros Hne. right. split; [exact HL0|]. exists node, leader. auto.
        -- intros [? | (_ & node' & leader' & [= <-] & [= <-] & Hne)];
             [discriminate | exact Hne].
      * split; [discriminate|].
        intros [? | (_ & ? & ? & _ & ? & _)]; discriminate.
    + split; [discriminate|].
      intros [? | (? & _)]; [discriminate | contradiction].
  - split; [left; reflexivity | reflexivity].
Qed.

Lemma foldl_load_step {K} (test : K → datapb.SegmentInfo → bool)
    (step : list datapb.SegmentInfo → K * datapb.SegmentInfo → list datapb.SegmentInfo)
    (entries : list (K * datapb.SegmentInfo)) :
  (∀ toLoad segmentID segment,
     step toLoad (segmentID, segment)
     = if test segmentID segment then toLoad ++ [segment] else toLoad) →
  ∀ (toLoad : list datapb.SegmentInfo) (segment : datapb.SegmentInfo),
    segment ∈ foldl step toLoad entries
    ↔ segment ∈ toLoad
      ∨ ∃ segmentID, (segmentID, segment) ∈ entries ∧ test segmentID segment = true.
Proof.
  intros Hstep.
  induction entries as [|[k v] entries IH]; intros toLoad segment; cbn [foldl].
  - split; [auto|]. intros [H | (? & H & _)]; [exact H | inversion H].
  - rewrite IH, Hstep. destruct (test k v) eqn:Htest.
    + rewrite elem_of_app, list_elem_of_singleton. split.
      * intros [[H | ->] | (k' & Hin & Ht)]; [auto | |].
        -- right. exists k. split; [left | exact Htest].
        -- right. exists k'. split; [right; exact Hin | exact Ht].
      * intros [H | (k' & Hin & Ht)]; [auto|].
        apply elem_of_cons in Hin as [[= -> ->] | Hin]; [auto|].
        right. exists k'. auto.
    + split.
      * intros [H | (k' & Hin & Ht)]; [auto|].
        right. exists k'. split; [right; exact Hin | exact Ht].
      * intros [H | (k' & Hin & Ht)]; [auto|].
        apply elem_of_cons in Hin as [[= -> ->] | Hin]; [congruence|].
        right. exists k'. auto.
Qed.

(** Membership in the load candidates, by the tests the two loops apply. *)
Lemma elem_of_sealedLoadCandidates (rt : GoRuntime) (c : SegmentChecker)
    (replica : querypb.Replica) (distMap : gmap Z Z)
    (nextTargetMap currentTargetMap : gmap Z datapb.SegmentInfo)
    (segment : datapb.SegmentInfo) :
  segment ∈ sealedLoadCandidates rt c replica distMap nextTargetMap currentTargetMap
  ↔ (∃ segmentID,
       (segmentID, segment) ∈ range_map rt nextTargetMap
       ∧ lacksSegment c replica distMap segmentID segment = true)
    ∨ (∃ segmentID,
         (segmentID, segment) ∈ range_map rt currentTargetMap
         ∧ nextTargetMap !! segmentID = None
         ∧ lacksSegment c replica distMap segmentID segment = true).
Proof.
  unfold sealedLoadCandidates.
  rewrite (foldl_load_step
             (λ segmentID segment,
                negb (bool_decide (is_Some (nextTargetMap !! segmentID)))
                && lacksSegment c replica distMap segmentID segment))
    by (intros toLoad k v; case_bool_decide; reflexivity).
  rewrite (foldl_load_step (lacksSegment c replica distMap)) by reflexivity.
  split.
  - intros [[H | (k & Hin & Hl)] | (k & Hin & Hl)]; [inversion H | left | right];
      exists k.
    + auto.
    + apply andb_true_iff in Hl as [Hnext Hl].
      apply negb_true_iff, bool_decide_eq_false in Hnext.
      split; [exact Hin|]. split; [|exact Hl].
      destruct (nextTargetMap !! k); [destruct Hnext; eauto | reflexivity].
  - intros [(k & Hin & Hl) | (k & Hin & Hnone & Hl)].
    + left. right. exists k. auto.
    + right. exists k. split; [exact Hin|].
      rewrite Hnone, Hl.
      rewrite bool_decide_eq_false_2 by (intros [? ?]; discriminate). reflexivity.
Qed.

(** The load candidates of [getSealedSegmentDiff], before L0 segments are
    given precedence: the segments the next target lists and the
    distribution lacks or, being L0, holds on another node than the latest
    leader of their channel, and likewise the segments of the current target
    that the next target does not list under the same id. *)
Theorem getSealedSegmentDiff_load_candidates
    (rt : GoRuntime) (c : SegmentChecker) (replica : querypb.Replica)
    (distMap : gmap Z Z) (nextTargetMap currentTargetMap : gmap Z datapb.SegmentInfo)
    (segment : datapb.SegmentInfo) :
  GoRuntimeOk rt →
  segment ∈ sealedLoadCandidates rt c replica distMap nextTargetMap currentTargetMap
  ↔ (∃ segmentID,
       nextTargetMap !! segmentID = Some segment
       ∧ missingOrMisplaced c replica distMap segmentID segment)
    ∨ (∃ segmentID,
         currentTargetMap !! segmentID = Some segment
         ∧ nextTargetMap !! segmentID = None
         ∧ missingOrMisplaced c replica distMap segmentID segment).
Proof.
  intros Hrt. rewrite elem_of_sealedLoadCandidates.
  assert (Hentry : ∀ (m : gmap Z datapb.SegmentInfo) segmentID,
            (segmentID, segment) ∈ range_map rt m ↔ m !! segmentID = Some segment)
    by (intros m segmentID; apply (elem_of_range_map rt Hrt)).
  split.
  - intros [(k & Hin & Hl) | (k & Hin & Hnone & Hl)]; [left | right]; exists k;
      rewrite <- lacksSegment_spec, <- Hentry; auto.
  - intros [(k & Hin & Hl) | (k & Hin & Hnone & Hl)]; [left | right]; exists k;
      rewrite lacksSegment_spec, Hentry; auto.
Qed.

Lemma getSealedSegmentDiff_load_candidates_witness :
  GoRuntimeOk stable_runtime
  ∧ sealedInfo 7 datapb.SegmentLevel_L0
    ∈ sealedLoadCandidates stable_runtime strayAndPending replica1
        (buildDistMap (sortedSealedDist stable_runtime strayAndPending replica1))
        (GetSealedSegmentsByCollection strayAndPending 100 meta.NextTarget)
        (GetSealedSegmentsByCollection strayAndPending 100 meta.CurrentTarget).
Proof.
  split; [exact stable_runtime_ok|].
  apply (getSealedSegmentDiff_load_candidates stable_runtime strayAndPending replica1 _ _ _ _
           stable_runtime_ok).
  left. exists 7. split; [vm_compute; reflexivity|].
  left. vm_compute. reflexivity.
Defined.

Lemma StronglySorted_filter {A} (R : relation A) (P : A → Prop) `{∀ x, Decision (P x)}
    (l : list A) :
  StronglySorted R l → StronglySorted R (filter P l).
Proof.
  induction 1 as [|x l Hsorted IH Hall]; [constructor|].
  rewrite filter_cons. destruct (decide (P x)); [|exact IH].
  constructor; [exact IH|].
  apply Forall_forall. intros y Hy. apply list_elem_of_filter in Hy as [_ Hy].
  rewrite Forall_forall in Hall. apply Hall, Hy.
Qed.

Lemma sealedReleaseCandidates_filter (dist : list meta.Segment)
    (nextTargetMap currentTargetMap : gmap Z datapb.SegmentInfo) :
  sealedReleaseCandidates dist nextTargetMap currentTargetMap
  = filter (untargeted nextTargetMap currentTargetMap) dist.
Proof.
  unfold sealedReleaseCandidates.
  rewrite (foldl_filter (untargeted nextTargetMap currentTargetMap)); [reflexivity|].
  intros acc s. unfold untargeted.
  destruct (decide (nextTargetMap !! GetID s = None ∧ currentTargetMap !! GetID s = None))
    as [[Hn Hc] | Hnot].
  - rewrite Hn, Hc.
    rewrite !bool_decide_eq_false_2 by (intros [? ?]; discriminate). reflexivity.
  - destruct (nextTargetMap !! GetID s) eqn:Hn.
    + rewrite (bool_decide_eq_true_2 (is_Some (Some _))) by eauto. reflexivity.
    + destruct (currentTargetMap !! GetID s) eqn:Hc; [|tauto].
      rewrite (bool_decide_eq_true_2 (is_Some (Some _))) by eauto.
      rewrite andb_false_r. reflexivity.
Qed.

(** The release candidates of [getSealedSegmentDiff] are the placements of
    the replica whose segment neither target lists, in the order [sort.Slice]
    left them, that is by ascending version; a placement is among them
    exactly when it is untargeted and in the replica's distribution.  L0
    placements are treated like any other here. *)
Theorem getSealedSegmentDiff_releases_untargeted
    (rt : GoRuntime) (c : SegmentChecker) (collectionID replicaID : Z)
    (replica : querypb.Replica) :
  GoRuntimeOk rt →
  meta_Get c replicaID = Some replica →
  let nextTargetMap := GetSealedSegmentsByCollection c collectionID meta.NextTarget in
  let currentTargetMap := GetSealedSegmentsByCollection c collectionID meta.CurrentTarget in
  let toRelease := (getSealedSegmentDiff rt c collectionID replicaID).2 in
  toRelease = filter (untargeted nextTargetMap currentTargetMap) (sortedSealedDist rt c replica)
  ∧ toRelease ≡ₚ filter (untargeted nextTargetMap currentTargetMap)
                   (getSealedSegmentsDist c replica)
  ∧ StronglySorted (λ s t, meta.Version s ≤ meta.Version t) toRelease.
Proof.
  intros Hrt Hget nextTargetMap currentTargetMap toRelease.
  assert (HtoRelease : toRelease
            = filter (untargeted nextTargetMap currentTargetMap) (sortedSealedDist rt c replica)).
  { unfold toRelease, getSealedSegmentDiff. rewrite Hget. simpl.
    apply sealedReleaseCandidates_filter. }
  split; [exact HtoRelease|]. rewrite HtoRelease. split.
  - unfold sortedSealedDist. rewrite (sort_Slice_perm rt Hrt). reflexivity.
  - apply StronglySorted_filter, (sort_Slice_sorted rt Hrt _ meta.Version).
Qed.

Lemma getSealedSegmentDiff_releases_untargeted_witness :
  GoRuntimeOk stable_runtime
  ∧ meta_Get strayAndPending 1 = Some replica1
  ∧ (getSealedSegmentDiff stable_runtime strayAndPending 100 1).2 = [placement 5 1 1].
Proof.
  split; [exact stable_runtime_ok|]. split; [reflexivity|].
  destruct (getSealedSegmentDiff_releases_untargeted stable_runtime strayAndPending 100 1
              replica1 stable_runtime_ok eq_refl) as [-> _].
  vm_compute. reflexivity.
Defined.

(** One pass of [getSealedSegmentDiff] never asks to load and to release the
    same segment, provided the target maps list every segment under its own
    id. *)
Theorem getSealedSegmentDiff_load_release_disjoint
    (rt : GoRuntime) (c : SegmentChecker) (collectionID replicaID : Z) :
  GoRuntimeOk rt →
  map_Forall (λ segmentID segment, datapb.ID segment = segmentID)
    (GetSealedSegmentsByCollection c collectionID meta.NextTarget) →
  map_Forall (λ segmentID segment, datapb.ID segment = segmentID)
    (GetSealedSegmentsByCollection c collectionID meta.CurrentTarget) →
  ∀ segment s,
    segment ∈ (getSealedSegmentDiff rt c collectionID replicaID).1 →
    s ∈ (getSealedSegmentDiff rt c collectionID replicaID).2 →
    datapb.ID segment ≠ GetID s.
Proof.
  intros Hrt Hnext Hcurrent segment s. unfold getSealedSegmentDiff.
  destruct (meta_Get c replicaID) as [replica|]; [|intros H; inversion H].
  cbn [fst snd]. intros Hload Hrelease Heq.
  rewrite sealedReleaseCandidates_filter in Hrelease.
  apply list_elem_of_filter in Hrelease as [[Hn Hc] _].
  assert (Hcand : segment ∈ sealedLoadCandidates rt c replica
                    (buildDistMap (sortedSealedDist rt c replica))
                    (GetSealedSegmentsByCollection c collectionID meta.NextTarget)
                    (GetSealedSegmentsByCollection c collectionID meta.CurrentTarget)).
  { unfold level0First in Hload. case_bool_decide; [|exact Hload].
    apply list_elem_of_filter in Hload as [_ Hload]. exact Hload. }
  apply elem_of_sealedLoadCandidates in Hcand as [(k & Hin & _) | (k & Hin & _)];
    apply (elem_of_range_map rt Hrt) in Hin.
  - pose proof (Hnext _ _ Hin) as Hid. simpl in Hid. congruence.
  - pose proof (Hcurrent _ _ Hin) as Hid. simpl in Hid. congruence.
Qed.

Lemma getSealedSegmentDiff_load_release_disjoint_witness :
  GoRuntimeOk stable_runtime
  ∧ sealedInfo 7 datapb.SegmentLevel_L0
    ∈ (getSealedSegmentDiff stable_runtime strayAndPending 100 1).1
  ∧ placement 5 1 1 ∈ (getSealedSegmentDiff stable_runtime strayAndPending 100 1).2
  ∧ datapb.ID (sealedInfo 7 datapb.SegmentLevel_L0) ≠ GetID (placement 5 1 1).
Proof.
  split; [exact stable_runtime_ok|].
  assert (sealedInfo 7 datapb.SegmentLevel_L0
          ∈ (getSealedSegmentDiff stable_runtime strayAndPending 100 1).1) as Hload
    by (vm_compute; repeat constructor).
  assert (placement 5 1 1 ∈ (getSealedSegmentDiff stable_runtime strayAndPending 100 1).2)
    as Hrelease by (vm_compute; repeat constructor).
  split; [exact Hload|]. split; [exact Hrelease|].
  apply (getSealedSegmentDiff_load_release_disjoint stable_runtime strayAndPending 100 1
           stable_runtime_ok);
    [apply (bool_decide_unpack _); vm_compute; exact I
    |apply (bool_decide_unpack _); vm_compute; exact I
    |exact Hload | exact Hrelease].
Defined.

(** ** Task creation: which tasks are built *)

(** [createSegmentReduceTasks] returns, in the order of its input, the task
    of every placement for which a task could be built, and skips the
    others: a construction error costs that one task only. *)
Theorem createSegmentReduceTasks_skips_failures
    (c : SegmentChecker) (segments : list meta.Segment) (replica : querypb.Replica)
    (scope : querypb.DataScope) :
  createSegmentReduceTasks c segments replica scope
  = omap (reduceTaskOf c replica scope) segments
  ∧ (length (createSegmentReduceTasks c segments replica scope) ≤ length segments)%nat
  ∧ ((∀ s, s ∈ segments → ∃ t, NewSegmentTask c (GetCollectionID s) replica
                                   (reduceAction s scope) = Ret t) ↔
     length (createSegmentReduceTasks c segments replica scope) = length segments).
Proof.
  assert (Homap : createSegmentReduceTasks c segments replica scope
                  = omap (reduceTaskOf c replica scope) segments).
  { unfold createSegmentReduceTasks.
    enough (∀ ret, foldl (λ ret s,
                 match NewSegmentTask c (GetCollectionID s) replica
                         (task.NewSegmentActionWithScope (meta.Node s) task.ActionTypeReduce
                            (GetInsertChannel s) (GetID s) scope) with
                 | Err _ => ret
                 | Ret t => ret ++ [t]
                 end) ret segments
               = ret ++ omap (reduceTaskOf c replica scope) segments) as Hgen
      by apply (Hgen []).
    induction segments as [|s segments IH]; intros ret; simpl.
    - rewrite app_nil_r. reflexivity.
    - rewrite IH. unfold reduceTaskOf at 2, reduceAction.
      destruct (NewSegmentTask c (GetCollectionID s) replica _); [|reflexivity].
      rewrite <- app_assoc. reflexivity. }
  rewrite Homap. clear Homap.
  assert (Hlen : ∀ l : list meta.Segment,
            (length (omap (reduceTaskOf c replica scope) l) ≤ length l)%nat).
  { induction l as [|s l IH]; [simpl; lia|].
    cbn [omap list_omap length].
    destruct (reduceTaskOf c replica scope s); cbn [length]; lia. }
  split; [reflexivity|]. split; [apply Hlen|].
  induction segments as [|s segments IH].
  - split; [reflexivity | intros _ s Hs; inversion Hs].
  - cbn [omap list_omap length].
    assert (Hnew : ∀ t, reduceTaskOf c replica scope s = Some t
                        ↔ NewSegmentTask c (GetCollectionID s) replica
                            (reduceAction s scope) = Ret t).
    { intros t. unfold reduceTaskOf.
      destruct (NewSegmentTask c (GetCollectionID s) replica (reduceAction s scope));
        split; congruence. }
    destruct (reduceTaskOf c replica scope s) as [t|]; cbn [length].
    + split.
      * intros Hall. f_equal. apply IH. intros s' Hs'. apply Hall. right. exact Hs'.
      * intros [= Hlength] s' Hs'. apply elem_of_cons in Hs' as [-> | Hs'].
        -- exists t. apply Hnew. reflexivity.
        -- apply IH; assumption.
    + split.
      * intros Hall. destruct (Hall s) as [t Ht]; [left|].
        apply Hnew in Ht. discriminate.
      * intros Hlength. pose proof (Hlen segments). lia.
Qed.

(** ** Task creation: the shards of a load batch *)

(** [lo.GroupBy] puts every element under its key, in input order. *)
Lemma GroupBy_lookup {A} (key : A → string) (l : list A) (k : string) :
  GroupBy l key !! k
  = match filter (λ x, key x = k) l with
    | [] => None
    | group => Some group
    end.
Proof.
  induction l as [|x l IH] using rev_ind; [reflexivity|].
  unfold GroupBy in *. rewrite foldl_app. cbn [foldl].
  rewrite filter_app, filter_cons, filter_nil.
  destruct (decide (key x = k)) as [<-|Hne].
  - rewrite lookup_insert_eq, IH.
    destruct (filter (λ y, key y = key x) l) as [|y group]; reflexivity.
  - rewrite lookup_insert_ne by exact Hne. rewrite app_nil_r. exact IH.
Qed.

(** The loop over the shards threads the node list through its turns; the
    plans it gathers are those of [shardPlans], shard by shard. *)
Lemma shardPlanStep_foldl (c : SegmentChecker) (replica : querypb.Replica)
    (isLevel0 : bool) (availableNodes : list Z)
    (entries : list (string * list datapb.SegmentInfo)) :
  ∀ nodes plans,
    isLevel0 = true ∨ nodes = availableNodes →
    (foldl (shardPlanStep c replica isLevel0) (nodes, plans) entries).2
    = plans ++ entries ≫= shardPlans c replica isLevel0 availableNodes.
Proof.
  induction entries as [|[shard segments] entries IH]; intros nodes plans Hnodes;
    cbn [foldl].
  - simpl. rewrite app_nil_r. reflexivity.
  - rewrite bind_cons. unfold shardPlanStep at 2, shardPlans at 1. cbn [fst snd].
    destruct (GetLatestLeadersByReplicaShard c replica shard) as [leader|].
    + rewrite IH.
      * rewrite <- app_assoc. do 3 f_equal.
        destruct isLevel0; [reflexivity|]. destruct Hnodes as [? | ->]; [discriminate|].
        reflexivity.
      * destruct isLevel0; [left; reflexivity | right].
        destruct Hnodes as [? | ->]; [discriminate | reflexivity].
    + apply IH, Hnodes.
Qed.

(** When some node is available, [createSegmentLoadTasks] turns into tasks
    the balancer's plans for every shard of the batch that has a leader,
    shard by shard in the order the runtime visits them.  The level of the
    first segment decides for the whole batch: for an L0 batch the balancer
    is offered, for each shard, the node of that shard's latest leader and no
    other; otherwise it is offered the available nodes, the same for every
    shard. *)
Theorem createSegmentLoadTasks_plans_per_shard
    (rt : GoRuntime) (c : SegmentChecker)
    (first : datapb.SegmentInfo) (rest : list datapb.SegmentInfo)
    (replica : querypb.Replica) :
  availableNodesOf c replica ≠ [] →
  createSegmentLoadTasks rt c (first :: rest) replica
  = CreateSegmentTasksFromPlans c
      (range_map rt (GroupBy (first :: rest) datapb.InsertChannel)
         ≫= shardPlans c replica (bool_decide (isLevel0 first))
              (availableNodesOf c replica)).
Proof.
  intros Hsome. unfold createSegmentLoadTasks.
  rewrite bool_decide_eq_false_2.
  - rewrite (shardPlanStep_foldl c replica _ (availableNodesOf c replica))
      by (right; reflexivity).
    reflexivity.
  - intros Hlen. apply Hsome. apply nil_length_inv, Hlen.
Qed.

Lemma createSegmentLoadTasks_plans_per_shard_witness :
  availableNodesOf strayAndPending replica1 = [1; 2; 3]
  ∧ availableNodesOf strayAndPending replica1 ≠ []
  ∧ balance.To <$> (range_map stable_runtime
                      (GroupBy [sealedInfo 7 datapb.SegmentLevel_L0] datapb.InsertChannel)
                    ≫= shardPlans strayAndPending replica1 true [1; 2; 3])
    = [3]
  ∧ createSegmentLoadTasks stable_runtime strayAndPending
      [sealedInfo 7 datapb.SegmentLevel_L0] replica1
    = CreateSegmentTasksFromPlans strayAndPending
        (range_map stable_runtime
           (GroupBy [sealedInfo 7 datapb.SegmentLevel_L0] datapb.InsertChannel)
         ≫= shardPlans strayAndPending replica1 true [1; 2; 3]).
Proof.
  assert (availableNodesOf strayAndPending replica1 = [1; 2; 3]) as Hnodes
    by (vm_compute; reflexivity).
  assert (availableNodesOf strayAndPending replica1 ≠ []) as Hsome
    by (rewrite Hnodes; discriminate).
  split; [exact Hnodes|]. split; [exact Hsome|].
  split; [vm_compute; reflexivity|].
  rewrite (createSegmentLoadTasks_plans_per_shard stable_runtime strayAndPending
             (sealedInfo 7 datapb.SegmentLevel_L0) [] replica1 Hsome).
  rewrite Hnodes. reflexivity.
Defined.

(** The shards [createSegmentLoadTasks] loops over: the runtime visits the
    pair of a channel and a list of segments exactly when the list is not
    empty and holds the segments of the batch on that channel, in the order
    of the batch.  So every segment of the batch is in the list of its own
    channel, and in no other. *)
Theorem createSegmentLoadTasks_shards_partition
    (rt : GoRuntime) (segments : list datapb.SegmentInfo)
    (shard : string) (group : list datapb.SegmentInfo) :
  GoRuntimeOk rt →
  (shard, group) ∈ range_map rt (GroupBy segments datapb.InsertChannel)
  ↔ group ≠ [] ∧ group = filter (λ s, datapb.InsertChannel s = shard) segments.
Proof.
  intros Hrt. rewrite (elem_of_range_map rt Hrt), GroupBy_lookup.
  destruct (filter (λ s, datapb.InsertChannel s = shard) segments) as [|s l].
  - split; [discriminate | intros [Hne ->]; destruct Hne; reflexivity].
  - split; [intros [= <-]; split; [discriminate | reflexivity] | intros [_ ->]; reflexivity].
Qed.

Lemma createSegmentLoadTasks_shards_partition_witness :
  GoRuntimeOk stable_runtime
  ∧ ("dml_0", [sealedInfo 7 datapb.SegmentLevel_L0; sealedInfo 8 datapb.SegmentLevel_Normal])
    ∈ range_map stable_runtime
        (GroupBy [sealedInfo 7 datapb.SegmentLevel_L0; sealedInfo 8 datapb.SegmentLevel_Normal]
           datapb.InsertChannel).
Proof.
  split; [exact stable_runtime_ok|].
  apply (createSegmentLoadTasks_shards_partition stable_runtime _ _ _ stable_runtime_ok).
  split; [discriminate | vm_compute; reflexivity].
Defined.

(** ** The duplicate resolver: how many placements it releases *)

Lemma size_list_to_set_le (l : list Z) : (size (list_to_set l : gset Z) ≤ length l)%nat.
Proof.
  induction l as [|x l IH]; [rewrite list_to_set_nil, size_empty; reflexivity|].
  rewrite list_to_set_cons. cbn [length].
  - destruct (decide (x ∈ (list_to_set l : gset Z))) as [Hin|Hnotin].
    + rewrite (subseteq_union_1_L {[x]} (list_to_set l))
        by (apply singleton_subseteq_l, Hin).
      lia.
    + rewrite size_union by (apply disjoint_singleton_l, Hnotin).
      rewrite size_singleton. lia.
Qed.

Lemma size_list_to_set_NoDup (l : list Z) :
  size (list_to_set l : gset Z) = length l ↔ NoDup l.
Proof.
  split; [|apply size_list_to_set].
  induction l as [|x l IH]; intros Hsize; [constructor|].
  rewrite list_to_set_cons in Hsize. cbn [length] in Hsize.
  destruct (decide (x ∈ (list_to_set l : gset Z))) as [Hin|Hnotin].
  - rewrite (subseteq_union_1_L {[x]} (list_to_set l)) in Hsize
      by (apply singleton_subseteq_l, Hin).
    pose proof (size_list_to_set_le l). lia.
  - rewrite size_union, size_singleton in Hsize by (apply disjoint_singleton_l, Hnotin).
    constructor; [|apply IH; lia].
    intros Hx. apply Hnotin, elem_of_list_to_set, Hx.
Qed.

Lemma repeatedLoop_tracked_ids (c : SegmentChecker) (dist : list meta.Segment) :
  dom (repeatedLoop c dist).2
  = (list_to_set (GetID <$> filter (notL0 c) dist) : gset Z).
Proof.
  pose proof (repeatedLoop_inv c dist) as Hinv.
  apply set_eq. intros k.
  rewrite elem_of_dom, elem_of_list_to_set, list_elem_of_fmap. split.
  - intros [m Hm].
    destruct (repeated_inv_tracked_elem c _ _ _ _ Hinv Hm) as (Hin & Hn & Hk).
    exists m. split; [symmetry; exact Hk|]. apply list_elem_of_filter. auto.
  - intros (t & -> & Ht). apply list_elem_of_filter in Ht as [Hn Ht].
    apply (inv_cover Hinv); assumption.
Qed.

(** Of the placements of a replica whose segment is not an L0 segment of
    the target, [findRepeatedSealedSegments] releases all but one per
    segment id: their number less the number of distinct ids.  It releases
    nothing exactly when no two of them share an id, and it never releases a
    placement whose segment is an L0 segment of the target. *)
Theorem findRepeatedSealedSegments_releases_all_but_one
    (c : SegmentChecker) (replicaID : Z) (replica : querypb.Replica) :
  meta_Get c replicaID = Some replica →
  let candidates := filter (notL0 c) (getSealedSegmentsDist c replica) in
  (length (findRepeatedSealedSegments c replicaID)
   + size (list_to_set (GetID <$> candidates) : gset Z)
   = length candidates)%nat
  ∧ (findRepeatedSealedSegments c replicaID = [] ↔ NoDup (GetID <$> candidates))
  ∧ (∀ s, s ∈ findRepeatedSealedSegments c replicaID → s ∈ candidates).
Proof.
  intros Hget candidates.
  unfold findRepeatedSealedSegments. rewrite Hget.
  pose proof (repeatedLoop_inv c (getSealedSegmentsDist c replica)) as Hinv.
  pose proof (inv_split Hinv) as Hsplit. fold candidates in Hsplit.
  assert (Hcount : (length (repeatedLoop c (getSealedSegmentsDist c replica)).1
                    + size (list_to_set (GetID <$> candidates) : gset Z)
                    = length candidates)%nat).
  { rewrite <- (Permutation_length Hsplit), length_app. f_equal.
    unfold candidates. rewrite <- repeatedLoop_tracked_ids, size_dom.
    unfold trackedPlacements. rewrite length_fmap, length_map_to_list. reflexivity. }
  split; [exact Hcount|]. split.
  - rewrite <- size_list_to_set_NoDup, length_fmap. split.
    + intros Hnil. rewrite Hnil in Hcount. simpl in Hcount. exact Hcount.
    + intros Hsize. apply nil_length_inv. lia.
  - intros s Hs. rewrite <- Hsplit. apply elem_of_app. left. exact Hs.
Qed.

Lemma findRepeatedSealedSegments_releases_all_but_one_witness :
  meta_Get threeVersions 1 = Some replica1
  ∧ (length (findRepeatedSealedSegments threeVersions 1) + 1 = 3)%nat.
Proof.
  split; [reflexivity|].
  destruct (findRepeatedSealedSegments_releases_all_but_one threeVersions 1 replica1 eq_refl)
    as [Hcount _].
  exact Hcount.
Defined.

(** The order in which the duplicate resolver meets the placements does not
    matter as long as no two different placements of one segment carry the
    same version: the tracked placements are then the same, and the released
    ones the same up to their order. *)
Theorem repeatedLoop_order_independent
    (c : SegmentChecker) (dist dist' : list meta.Segment) :
  dist ≡ₚ dist' →
  (∀ s t, s ∈ dist → t ∈ dist → notL0 c s → notL0 c t →
          GetID s = GetID t → meta.Version s = meta.Version t → s = t) →
  (repeatedLoop c dist).2 = (repeatedLoop c dist').2
  ∧ (repeatedLoop c dist).1 ≡ₚ (repeatedLoop c dist').1.
Proof.
  intros Hperm Hdistinct.
  pose proof (repeatedLoop_inv c dist) as Hinv.
  pose proof (repeatedLoop_inv c dist') as Hinv'.
  assert (Hin : ∀ s, s ∈ dist ↔ s ∈ dist') by (intros s; rewrite Hperm; reflexivity).
  assert (Hsame : ∀ k s, (repeatedLoop c dist).2 !! k = Some s →
                         (repeatedLoop c dist').2 !! k = Some s).
  { intros k s Hs.
    destruct (repeated_inv_tracked_elem c _ _ _ _ Hinv Hs) as (Hsin & Hsn & Hsk).
    destruct (inv_cover Hinv' s (proj1 (Hin s) Hsin) Hsn) as [s' Hs'].
    rewrite Hsk in Hs'.
    destruct (repeated_inv_tracked_elem c _ _ _ _ Hinv' Hs') as (Hsin' & Hsn' & Hsk').
    pose proof (inv_max Hinv _ _ _ Hs (proj2 (Hin s') Hsin') Hsn' Hsk') as Hle.
    pose proof (inv_max Hinv' _ _ _ Hs' (proj1 (Hin s) Hsin) Hsn Hsk) as Hle'.
    rewrite Hs'. f_equal. symmetry.
    apply Hdistinct; [exact Hsin | apply Hin, Hsin' | exact Hsn | exact Hsn' | congruence | lia]. }
  assert (Hmaps : (repeatedLoop c dist).2 = (repeatedLoop c dist').2).
  { apply map_eq. intros k.
    destruct ((repeatedLoop c dist).2 !! k) as [s|] eqn:Hs.
    - symmetry. apply Hsame, Hs.
    - destruct ((repeatedLoop c dist').2 !! k) as [s'|] eqn:Hs'; [|reflexivity].
      destruct (repeated_inv_tracked_elem c _ _ _ _ Hinv' Hs') as (Hsin' & Hsn' & Hsk').
      destruct (inv_cover Hinv s' (proj2 (Hin s') Hsin') Hsn') as [s Hs''].
      congruence. }
  split; [exact Hmaps|].
  apply (Permutation_app_inv_r (trackedPlacements (repeatedLoop c dist).2)).
  rewrite (inv_split Hinv). rewrite Hmaps. rewrite (inv_split Hinv').
  rewrite Hperm. reflexivity.
Qed.

Lemma repeatedLoop_order_independent_witness :
  [placement 7 1 3; placement 7 2 1; placement 7 3 2]
    ≡ₚ [placement 7 3 2; placement 7 2 1; placement 7 1 3]
  ∧ (repeatedLoop threeVersions [placement 7 1 3; placement 7 2 1; placement 7 3 2]).1
    ≡ₚ (repeatedLoop threeVersions [placement 7 3 2; placement 7 2 1; placement 7 1 3]).1.
Proof.
  assert ([placement 7 1 3; placement 7 2 1; placement 7 3 2]
            ≡ₚ [placement 7 3 2; placement 7 2 1; placement 7 1 3]) as Hperm.
  { change [placement 7 3 2; placement 7 2 1; placement 7 1 3]
      with (reverse [placement 7 1 3; placement 7 2 1; placement 7 3 2]).
    symmetry. apply reverse_Permutation. }
  split; [exact Hperm|].
  apply (repeatedLoop_order_independent threeVersions _ _ Hperm).
  intros s t Hs Ht _ _ _.
  rewrite !elem_of_cons, elem_of_nil in Hs, Ht.
  destruct Hs as [-> | [-> | [-> | []]]], Ht as [-> | [-> | [-> | []]]];
    simpl; intros Hv; solve [reflexivity | discriminate Hv].
Defined.

(** ** The differs: two consequences *)

Lemma level0First_one_level (candidates : list datapb.SegmentInfo) :
  (∀ segment, segment ∈ level0First candidates → isLevel0 segment)
  ∨ (∀ segment, segment ∈ level0First candidates → ¬ isLevel0 segment).
Proof.
  unfold level0First. case_bool_decide as Hlen.
  - left. intros s Hs. apply list_elem_of_filter in Hs as [HL0 _]. exact HL0.
  - right. intros s Hs HL0.
    assert (s ∈ filter isLevel0 candidates) as Hin
      by (apply list_elem_of_filter; auto).
    destruct (filter isLevel0 candidates); [inversion Hin | simpl in Hlen; lia].
Qed.

(** The load list [getSealedSegmentDiff] returns is of one level: all of its
    segments are L0 segments or none is.  [createSegmentLoadTasks] decides
    from the first segment of the list whether the batch is an L0 batch. *)
Theorem getSealedSegmentDiff_loads_one_level
    (rt : GoRuntime) (c : SegmentChecker) (collectionID replicaID : Z) :
  let toLoad := (getSealedSegmentDiff rt c collectionID replicaID).1 in
  ((∀ segment, segment ∈ toLoad → isLevel0 segment)
   ∨ (∀ segment, segment ∈ toLoad → ¬ isLevel0 segment))
  ∧ (∀ first rest segment,
       toLoad = first :: rest → segment ∈ toLoad →
       (isLevel0 segment ↔ isLevel0 first)).
Proof.
  intros toLoad.
  assert (Hlevel : (∀ segment, segment ∈ toLoad → isLevel0 segment)
                   ∨ (∀ segment, segment ∈ toLoad → ¬ isLevel0 segment)).
  { unfold toLoad, getSealedSegmentDiff.
    destruct (meta_Get c replicaID) as [replica|]; [|left; intros s Hs; inversion Hs].
    cbn [fst]. apply level0First_one_level. }
  split; [exact Hlevel|].
  intros first rest segment Heq Hin.
  assert (Hfirst : first ∈ toLoad) by (rewrite Heq; left).
  destruct Hlevel as [Hall | Hnone].
  - split; intros _; apply Hall; assumption.
  - split; intros HL0; [destruct (Hnone segment Hin HL0) | destruct (Hnone first Hfirst HL0)].
Qed.

(** While no registered leader view has adopted the collection's current
    target version, [getGrowingSegmentDiff] marks no growing segment; and it
    never asks for a load. *)
Theorem getGrowingSegmentDiff_waits_for_leaders
    (rt : GoRuntime) (c : SegmentChecker) (collectionID replicaID : Z) :
  (∀ channelName node view,
     GetLeaderShardView c node channelName = Some view →
     meta.TargetVersion view ≠ GetCollectionTargetVersion c collectionID meta.CurrentTarget) →
  getGrowingSegmentDiff rt c collectionID replicaID = ([], []).
Proof.
  intros Hstale. unfold getGrowingSegmentDiff.
  destruct (meta_Get c replicaID) as [replica|]; [|reflexivity].
  f_equal.
  destruct (foldl (growingLeaderStep rt c collectionID) []
              (range_map rt (GetShardLeadersByReplica c replica))) as [|g toRelease] eqn:Hfold;
    [reflexivity|].
  assert (g ∈ foldl (growingLeaderStep rt c collectionID) []
                (range_map rt (GetShardLeadersByReplica c replica))) as Hg
    by (rewrite Hfold; left).
  apply elem_of_growingLeaderStep_foldl in Hg
    as [Hg | (channelName & node & view & _ & Hview & Hver & _)]; [inversion Hg|].
  destruct (Hstale _ _ _ Hview Hver).
Qed.

Lemma getGrowingSegmentDiff_waits_for_leaders_witness :
  behindWatermark growingStale 100 (growing 21 50)
  ∧ getGrowingSegmentDiff stable_runtime growingStale 100 1 = ([], []).
Proof.
  split.
  - split; [vm_compute; discriminate|]. split; [vm_compute; discriminate|].
    exists {| meta.VchannelInfo :=
                {| datapb.SeekPosition := Some {| datapb.Timestamp := 100 |} |} |}.
    split; vm_compute; reflexivity.
  - apply (getGrowingSegmentDiff_waits_for_leaders stable_runtime growingStale 100 1).
    intros channelName node view [= <-]. simpl. discriminate.
Defined.

(** As soon as one of the segments to load is an L0 segment, the pass loads
    L0 segments only, and offers the balancer, for each shard, the node of
    that shard's latest leader and no other node of the replica. *)
Theorem createSegmentLoadTasks_level0_on_leader
    (rt : GoRuntime) (c : SegmentChecker) (replica : querypb.Replica) :
  let toLoad :=
    (getSealedSegmentDiff rt c (querypb.CollectionID replica) (querypb.ID replica)).1 in
  (∃ segment, segment ∈ toLoad ∧ isLevel0 segment) →
  availableNodesOf c replica ≠ [] →
  (∀ segment, segment ∈ toLoad → isLevel0 segment)
  ∧ createSegmentLoadTasks rt c toLoad replica
    = CreateSegmentTasksFromPlans c
        (range_map rt (GroupBy toLoad datapb.InsertChannel)
           ≫= shardPlans c replica true []).
Proof.
  intros toLoad (segment & Hin & HL0) Hsome.
  assert (Hall : ∀ s, s ∈ toLoad → isLevel0 s).
  { unfold toLoad, getSealedSegmentDiff in *.
    destruct (meta_Get c (querypb.ID replica)) as [replica'|]; [|inversion Hin].
    cbn [fst] in *.
    destruct (level0First_one_level
                (sealedLoadCandidates rt c replica'
                   (buildDistMap (sortedSealedDist rt c replica'))
                   (GetSealedSegmentsByCollection c (querypb.CollectionID replica)
                      meta.NextTarget)
                   (GetSealedSegmentsByCollection c (querypb.CollectionID replica)
                      meta.CurrentTarget))) as [Hall | Hnone];
      [exact Hall | destruct (Hnone segment Hin HL0)]. }
  split; [exact Hall|].
  destruct toLoad as [|first rest]; [inversion Hin|].
  unfold createSegmentLoadTasks.
  rewrite bool_decide_eq_false_2
    by (intros Hlen; apply Hsome; apply nil_length_inv, Hlen).
  rewrite (bool_decide_eq_true_2 (isLevel0 first)) by (apply Hall; left).
  rewrite (shardPlanStep_foldl c replica true []) by (left; reflexivity).
  reflexivity.
Qed.

Lemma createSegmentLoadTasks_level0_on_leader_witness :
  (∃ segment,
     segment ∈ (getSealedSegmentDiff stable_runtime strayAndPending 100 1).1
     ∧ isLevel0 segment)
  ∧ availableNodesOf strayAndPending replica1 = [1; 2; 3]
  ∧ createSegmentLoadTasks stable_runtime strayAndPending
      (getSealedSegmentDiff stable_runtime strayAndPending 100 1).1 replica1
    = [ {| task.CollectionID := 100;
           task.Replica := replica1;
           task.Actions := [task.NewSegmentActionWithScope 3 task.ActionTypeGrow "dml_0" 7
                              querypb.DataScope_Historical];
           task.Reason := "";
           task.Priority_ := task.TaskPriorityLow |} ].
Proof.
  assert (∃ segment,
            segment ∈ (getSealedSegmentDiff stable_runtime strayAndPending
                         (querypb.CollectionID replica1) (querypb.ID replica1)).1
            ∧ isLevel0 segment) as Hsome.
  { exists (sealedInfo 7 datapb.SegmentLevel_L0).
    split; [vm_compute; repeat constructor | reflexivity]. }
  assert (availableNodesOf strayAndPending replica1 ≠ []) as Hnodes
    by (vm_compute; discriminate).
  split; [exact Hsome|]. split; [vm_compute; reflexivity|].
  destruct (createSegmentLoadTasks_level0_on_leader stable_runtime strayAndPending replica1
              Hsome Hnodes) as [_ Htasks].
  change (querypb.CollectionID replica1) with 100 in Htasks.
  change (querypb.ID replica1) with 1 in Htasks.
  rewrite Htasks. vm_compute. reflexivity.
Defined.

(** ** Task creation: the nodes offered to the balancer *)

(** C10, as the code has it.  The nodes [createSegmentLoadTasks] keeps as
    available are exactly the replica's nodes that the node manager knows
    and reports as not stopping and that are not outbound for the replica;
    when none is left, the call produces no task.  Otherwise, for a batch
    whose first segment is not an L0 segment, the tasks are built from the
    balancer's plans over exactly these available nodes, for every shard
    that has a leader; for a batch whose first segment is an L0 segment
    they are built from the balancer's plans over the node of the shard's
    latest leader alone, which is not looked up among the available nodes. *)
Theorem createSegmentLoadTasks_offers_available_nodes_or_leader
    (rt : GoRuntime) (c : SegmentChecker)
    (segments : list datapb.SegmentInfo) (replica : querypb.Replica) :
  (∀ node,
     node ∈ availableNodesOf c replica
     ↔ node ∈ querypb.Nodes replica
       ∧ IsStoppingNode c node = Ret false
       ∧ node ∉ ResourceManager_CheckOutboundNodes c replica)
  ∧ (availableNodesOf c replica = [] → createSegmentLoadTasks rt c segments replica = [])
  ∧ (∀ first rest,
       segments = first :: rest → availableNodesOf c replica ≠ [] →
       (¬ isLevel0 first →
        createSegmentLoadTasks rt c segments replica
        = CreateSegmentTasksFromPlans c
            (range_map rt (GroupBy segments datapb.InsertChannel)
               ≫= shardPlans c replica false (availableNodesOf c replica)))
       ∧ (isLevel0 first →
          createSegmentLoadTasks rt c segments replica
          = CreateSegmentTasksFromPlans c
              (range_map rt (GroupBy segments datapb.InsertChannel)
                 ≫= shardPlans c replica true []))).
Proof.
  split; [|split].
  - intros node. unfold availableNodesOf. rewrite list_elem_of_filter.
    unfold nodeAvailable.
    destruct (IsStoppingNode c node) as [stop|e].
    + rewrite andb_True, bool_decide_spec. destruct stop; simpl.
      * split; [intros [[_ []] _] | intros (_ & [=] & _)].
      * split; [intros [[Hout _] Hin] | intros (Hin & _ & Hout)]; auto.
    + simpl. split; [intros [[] _] | intros (_ & [=] & _)].
  - intros Hnone. unfold createSegmentLoadTasks.
    destruct segments as [|first rest]; [reflexivity|].
    rewrite Hnone. reflexivity.
  - intros first rest -> Hsome.
    assert (Hlen : bool_decide (length (availableNodesOf c replica) = 0%nat) = false).
    { apply bool_decide_eq_false_2. intros Hlen. apply Hsome, nil_length_inv, Hlen. }
    split; intros HL0; unfold createSegmentLoadTasks; rewrite Hlen.
    + rewrite (bool_decide_eq_false_2 (isLevel0 first)) by exact HL0.
      rewrite (shardPlanStep_foldl c replica false (availableNodesOf c replica))
        by (right; reflexivity).
      reflexivity.
    + rewrite (bool_decide_eq_true_2 (isLevel0 first)) by exact HL0.
      rewrite (shardPlanStep_foldl c replica true []) by (left; reflexivity).
      reflexivity.
Qed.

Lemma createSegmentLoadTasks_offers_available_nodes_or_leader_witness :
  IsStoppingNode stoppingLeader 1 = Ret true
  ∧ availableNodesOf stoppingLeader replica1 = [2; 3]
  ∧ createSegmentLoadTasks stable_runtime stoppingLeader
      [sealedInfo 8 datapb.SegmentLevel_Normal] replica1
    = [ {| task.CollectionID := 100;
           task.Replica := replica1;
           task.Actions := [task.NewSegmentActionWithScope 2 task.ActionTypeGrow "dml_0" 8
                              querypb.DataScope_Historical];
           task.Reason := "";
           task.Priority_ := task.TaskPriorityLow |} ]
  ∧ availableNodesOf noNodeAvailable replica1 = []
  ∧ createSegmentLoadTasks stable_runtime noNodeAvailable
      [sealedInfo 7 datapb.SegmentLevel_Normal] replica1 = [].
Proof.
  split; [reflexivity|]. split; [vm_compute; reflexivity|].
  split.
  - destruct (createSegmentLoadTasks_offers_available_nodes_or_leader stable_runtime
                stoppingLeader [sealedInfo 8 datapb.SegmentLevel_Normal] replica1)
      as (_ & _ & Hsome).
    destruct (Hsome (sealedInfo 8 datapb.SegmentLevel_Normal) [] eq_refl) as [Hnormal _];
      [vm_compute; discriminate|].
    rewrite Hnormal by discriminate. vm_compute. reflexivity.
  - split; [vm_compute; reflexivity|].
    apply (proj1 (proj2 (createSegmentLoadTasks_offers_available_nodes_or_leader
                           stable_runtime noNodeAvailable
                           [sealedInfo 7 datapb.SegmentLevel_Normal] replica1))).
    vm_compute. reflexivity.
Defined.

(** C10, as the claim has it, fails for a batch of L0 segments.  On
    [stoppingLeader] node 1 is stopping and so is not among the available
    nodes; it is the latest leader of the channel of the L0 segment 7, and
    it is the one node the balancer is offered: the load task goes to the
    stopping node. *)
Lemma createSegmentLoadTasks_level0_offers_stopping_leader :
  IsStoppingNode stoppingLeader 1 = Ret true
  ∧ availableNodesOf stoppingLeader replica1 = [2; 3]
  ∧ meta.ID <$> GetLatestLeadersByReplicaShard stoppingLeader replica1 "dml_0" = Some 1
  ∧ createSegmentLoadTasks stable_runtime stoppingLeader
      [sealedInfo 7 datapb.SegmentLevel_L0] replica1
    = CreateSegmentTasksFromPlans stoppingLeader
        ((λ p, {| balance.Segment := balance.Segment p;
                  balance.Replica := Some replica1;
                  balance.From := balance.From p;
                  balance.To := balance.To p |})
           <$> AssignSegment stoppingLeader 100
                 [ {| meta.SegmentInfo := sealedInfo 7 datapb.SegmentLevel_L0;
                      meta.Node := 0; meta.Version := 0 |} ]
                 [1] false)
  ∧ createSegmentLoadTasks stable_runtime stoppingLeader
      [sealedInfo 7 datapb.SegmentLevel_L0] replica1
    = [ {| task.CollectionID := 100;
           task.Replica := replica1;
           task.Actions := [task.NewSegmentActionWithScope 1 task.ActionTypeGrow "dml_0" 7
                              querypb.DataScope_Historical];
           task.Reason := "";
           task.Priority_ := task.TaskPriorityLow |} ].
Proof.
  split; [reflexivity|]. split; [vm_compute; reflexivity|].
  split; [reflexivity|].
  split; vm_compute; reflexivity.
Qed.

(** ** The segment-to-node map when equal versions keep their order *)

Section StableTie.
Context {A : Type}.
Variable key : A → Z.

#[local] Abbreviation before := (λ x y : A, negb (bool_decide (key y < key x))).

Lemma insert_sorted_app (x : A) (l1 l2 : list A) :
  insert_sorted before x (l1 ++ l2) = insert_sorted before x l1 ++ l2
  ∨ insert_sorted before x (l1 ++ l2) = l1 ++ insert_sorted before x l2.
Proof.
  induction l1 as [|y l1 IH]; [right; reflexivity|].
  simpl. destruct (negb (bool_decide (key y < key x))); [left; reflexivity|].
  destruct IH as [IH | IH]; rewrite IH; [left | right]; reflexivity.
Qed.

(** Where the insertion puts [x]: behind it come only elements that are not
    smaller. *)
Lemma insert_sorted_split (x : A) (l : list A) :
  StronglySorted (λ a b, key a ≤ key b) l →
  ∃ front back,
    insert_sorted before x l = front ++ x :: back
    ∧ l = front ++ back
    ∧ ∀ t, t ∈ back → key x ≤ key t.
Proof.
  induction l as [|y l IH]; intros Hsorted.
  - exists [], []. split; [reflexivity|]. split; [reflexivity|].
    intros t Ht. inversion Ht.
  - apply StronglySorted_inv in Hsorted as [Hl Hy].
    simpl. destruct (negb (bool_decide (key y < key x))) eqn:Hb.
    + exists [], (y :: l). split; [reflexivity|]. split; [reflexivity|].
      apply negb_true_iff, bool_decide_eq_false in Hb.
      intros t Ht. apply elem_of_cons in Ht as [-> | Ht]; [lia|].
      rewrite Forall_forall in Hy. specialize (Hy t Ht). simpl in Hy. lia.
    + destruct (IH Hl) as (front & back & -> & -> & Hback).
      exists (y :: front), back. split; [reflexivity|]. split; [reflexivity|].
      exact Hback.
Qed.

(** In the stable order an element is followed only by greater elements and
    by elements that are not smaller and came after it. *)
Lemma stable_sort_later (pre post : list A) (s : A) :
  ∃ front back,
    stable_sort (λ x y, bool_decide (key x < key y)) (pre ++ s :: post)
    = front ++ s :: back
    ∧ ∀ t, t ∈ back →
           (t ∈ pre ∧ key s < key t) ∨ (t ∈ post ∧ key s ≤ key t).
Proof.
  unfold stable_sort.
  induction pre as [|x pre IH].
  - cbn [app insertion_sort foldr].
    destruct (insert_sorted_split s (insertion_sort before post))
      as (front & back & Heq & Hsplit & Hback).
    { apply insertion_sort_sorted; intros a b Hb.
      - apply negb_true_iff, bool_decide_eq_false in Hb. lia.
      - apply negb_false_iff, bool_decide_eq_true in Hb. lia. }
    exists front, back. split; [exact Heq|].
    intros t Ht. right. split; [|apply Hback, Ht].
    rewrite <- (insertion_sort_perm before post).
    unfold insertion_sort in Hsplit |- *. rewrite Hsplit.
    apply elem_of_app. right. exact Ht.
  - destruct IH as (front & back & Heq & Hback).
    cbn [app insertion_sort foldr]. unfold insertion_sort in Heq. rewrite Heq.
    assert (Hlift : ∀ t, t ∈ back →
              (t ∈ x :: pre ∧ key s < key t) ∨ (t ∈ post ∧ key s ≤ key t)).
    { intros t Ht. destruct (Hback t Ht) as [[Hin Hlt] | Hpost]; [left | right; exact Hpost].
      split; [right; exact Hin | exact Hlt]. }
    destruct (insert_sorted_app x front (s :: back)) as [-> | ->].
    + exists (insert_sorted before x front), back. split; [reflexivity | exact Hlift].
    + simpl. destruct (negb (bool_decide (key s < key x))) eqn:Hb.
      * exists (front ++ [x]), back. rewrite <- app_assoc. split; [reflexivity | exact Hlift].
      * exists front, (insert_sorted before x back). split; [reflexivity|].
        apply negb_false_iff, bool_decide_eq_true in Hb.
        intros t Ht. rewrite insert_sorted_perm in Ht.
        apply elem_of_cons in Ht as [-> | Ht]; [|apply Hlift, Ht].
        left. split; [left | exact Hb].
Qed.

End StableTie.

(** When [sort.Slice] leaves placements of equal version in the order they
    had, as a stable sort does, the map holds for every segment the node of
    the placement that comes last in the replica's distribution among those
    of the segment's highest version. *)
Theorem getSealedSegmentDiff_distMap_stable_tie
    (rt : GoRuntime) (c : SegmentChecker) (replica : querypb.Replica)
    (pre post : list meta.Segment) (s : meta.Segment) :
  sortedSealedDist rt c replica
  = stable_sort (λ si sj, bool_decide (meta.Version si < meta.Version sj))
      (getSealedSegmentsDist c replica) →
  getSealedSegmentsDist c replica = pre ++ s :: post →
  (∀ t, t ∈ pre → GetID t = GetID s → meta.Version t ≤ meta.Version s) →
  (∀ t, t ∈ post → GetID t = GetID s → meta.Version t < meta.Version s) →
  buildDistMap (sortedSealedDist rt c replica) !! GetID s = Some (meta.Node s).
Proof.
  intros Hstable Hdist Hpre Hpost. rewrite Hstable, Hdist.
  destruct (stable_sort_later meta.Version pre post s) as (front & back & -> & Hback).
  apply buildDistMap_last. intros t Ht Hid.
  destruct (Hback t Ht) as [[Hin Hlt] | [Hin Hle]].
  - specialize (Hpre t Hin Hid). lia.
  - specialize (Hpost t Hin Hid). lia.
Qed.

Lemma getSealedSegmentDiff_distMap_stable_tie_witness :
  getSealedSegmentsDist equalVersions replica1 = [placement 7 1 5; placement 7 2 5]
  ∧ buildDistMap (sortedSealedDist stable_runtime equalVersions replica1) !! 7 = Some 2.
Proof.
  split; [reflexivity|].
  apply (getSealedSegmentDiff_distMap_stable_tie stable_runtime equalVersions replica1
           [placement 7 1 5] [] (placement 7 2 5) eq_refl eq_refl).
  - intros t Ht _. apply list_elem_of_singleton in Ht. subst t. simpl. lia.
  - intros t Ht. inversion Ht.
Defined.
